(** * PowerPoint review agent: a shallow embedding of [pptx_agent.py]

    The development follows the layout of the Python module: Python values
    and strings, the document collaborator (python-pptx objects as plain
    records), the data classes, the six tools, the tool registry and the
    agent loop of [run_agent].  [find_most_common_position] of
    [correct_pptx.py] is embedded next to [tool_analyze_alignment], which
    repeats its body.

    Conventions.
    - A Python [str] is a [string] of the Standard Library; the model covers
      ASCII text (one character per code point).
    - A Python [int] is a [Z].
    - A function that mutates the [AgentState] or the file system and may
      raise is a computation in the monad [M] below: it returns an [outcome]
      together with the state and file system as they are when it returns
      or raises (a Python exception does not undo earlier mutations).
    - Console output ([print]) is not modelled. *)

From stdpp Require Import base numbers list strings pretty gmap.
From Stdlib Require Import Ascii ZArith Lia.

Local Open Scope Z_scope.

(* ===================================================================== *)
(** ** Python values and exceptions *)
(* ===================================================================== *)

(** The values [json.loads] can produce and [json.dumps] can print, without
    floating point numbers.  A [dict] keeps its insertion order, so it is an
    association list; [dict_get] reads the first binding of a key. *)
#[warnings="-register-all"]
Inductive pyval : Type :=
| PNone
| PBool (b : bool)
| PInt (n : Z)
| PStr (s : string)
| PList (l : list pyval)
| PDict (d : list (string * pyval)).

(** The exceptions that can cross the code of [pptx_agent.py]. *)
Inductive exn : Type :=
| KeyError (key : string)
| TypeError
| ValueError
| JSONDecodeError
| PackageNotFoundError (path : string)
| OSError (path : string)
| IndexError
| APIError.

Inductive outcome (A : Type) : Type :=
| Ok (a : A)
| Raise (e : exn).
Arguments Ok {A} a.
Arguments Raise {A} e.

Fixpoint dict_get (d : list (string * pyval)) (k : string) : option pyval :=
  match d with
  | [] => None
  | (k', v) :: d' => if String.eqb k' k then Some v else dict_get d' k
  end.

(** [v[k]] for a string key [k]: a [KeyError] on a dict without the key, a
    [TypeError] on every other value (lists, strings, numbers and [None] do
    not accept a string subscript). *)
Definition subscript (v : pyval) (k : string) : outcome pyval :=
  match v with
  | PDict d => match dict_get d k with
               | Some x => Ok x
               | None => Raise (KeyError k)
               end
  | _ => Raise TypeError
  end.

(* ===================================================================== *)
(** ** Python string operations *)
(* ===================================================================== *)

Module PyStr.

(** [Py_UNICODE_ISSPACE] on ASCII: what [str.strip] removes. *)
Definition isspace (c : ascii) : bool :=
  let n := nat_of_ascii c in
  ((9 <=? n) && (n <=? 13) || (28 <=? n) && (n <=? 31) || (n =? 32))%nat.

(** [Py_ISSPACE]: what [int] skips around an ASCII numeral. *)
Definition isspace_c (c : ascii) : bool :=
  let n := nat_of_ascii c in
  ((9 <=? n) && (n <=? 13) || (n =? 32))%nat.

(** Truth value of [s.strip()]: some character is not white space. *)
Fixpoint strip_nonempty (s : string) : bool :=
  match s with
  | EmptyString => false
  | String c r => negb (isspace c) || strip_nonempty r
  end.

(** [s.startswith(p)]. *)
Fixpoint startswith (p s : string) : bool :=
  match p, s with
  | EmptyString, _ => true
  | String a p', String b s' => Ascii.eqb a b && startswith p' s'
  | String _ _, EmptyString => false
  end.

(** [sub in s]. *)
Fixpoint contains (sub s : string) : bool :=
  startswith sub s ||
  match s with
  | EmptyString => false
  | String _ r => contains sub r
  end.

(** [s.find(sub)]: the index of the first occurrence of [sub] in [s];
    [None] stands for -1. *)
Fixpoint find (sub s : string) : option nat :=
  if startswith sub s then Some O
  else match s with
       | EmptyString => None
       | String _ r => option_map S (find sub r)
       end.

(** [s[n:]]. *)
Fixpoint drop (n : nat) (s : string) : string :=
  match n, s with
  | O, _ => s
  | S n', String _ r => drop n' r
  | S _, EmptyString => EmptyString
  end.

(** [s.replace(old, new)] for a non-empty [old], scanning left to right.
    [skip] counts the characters of [s] that still belong to the
    occurrence of [old] found last; they are dropped. *)
Fixpoint replace_scan (old new : string) (skip : nat) (s : string) : string :=
  match s with
  | EmptyString => EmptyString
  | String c r =>
      match skip with
      | S k => replace_scan old new k r
      | O =>
          if startswith old s
          then new +:+ replace_scan old new (String.length old - 1) r
          else String c (replace_scan old new O r)
      end
  end.

(** [s.replace("", new)]: [new] before every character and at the end. *)
Fixpoint intersperse (new s : string) : string :=
  match s with
  | EmptyString => new
  | String c r => new +:+ String c (intersperse new r)
  end.

Definition replace (old new s : string) : string :=
  match old with
  | EmptyString => intersperse new s
  | String _ _ => replace_scan old new O s
  end.

(** *** [int(s)] on an ASCII string

    White space around the numeral, an optional sign, decimal digits with
    single underscores between digits; more than [MAX_STR_DIGITS] digits
    are refused (CPython's default limit).  [None] stands for the
    [ValueError] that [int] raises. *)

Definition MAX_STR_DIGITS : nat := 4300.

Definition digit_value (c : ascii) : option Z :=
  let n := nat_of_ascii c in
  if ((48 <=? n) && (n <=? 57))%nat then Some (Z.of_nat n - 48) else None.

Fixpoint lstrip_c (s : string) : string :=
  match s with
  | String c r => if isspace_c c then lstrip_c r else s
  | EmptyString => EmptyString
  end.

Fixpoint rstrip_c (s : string) : string :=
  match s with
  | EmptyString => EmptyString
  | String c r =>
      match rstrip_c r with
      | EmptyString => if isspace_c c then EmptyString else String c EmptyString
      | r' => String c r'
      end
  end.

(** [digits acc count prev s]: [acc] is the value read so far, [count] the
    number of digits read, [prev] tells whether the previous character
    was a digit ([false] at the start and after an underscore). *)
Fixpoint digits (acc : Z) (count : nat) (prev : bool) (s : string) : option Z :=
  match s with
  | EmptyString =>
      if prev && (count <=? MAX_STR_DIGITS)%nat then Some acc else None
  | String c r =>
      match digit_value c with
      | Some d => digits (10 * acc + d) (S count) true r
      | None =>
          if Ascii.eqb c "_" && prev then digits acc count false r else None
      end
  end.

Definition int (s : string) : option Z :=
  match lstrip_c (rstrip_c s) with
  | String "+" r => digits 0 0 false r
  | String "-" r => option_map Z.opp (digits 0 0 false r)
  | body => digits 0 0 false body
  end.

End PyStr.

(* ===================================================================== *)
(** ** The document collaborator (python-pptx) *)
(* ===================================================================== *)

(** Presentations as plain data: the attributes the agent reads and writes.
    [Pptx.name sh] is [shape.name], [Pptx.left sh] is [shape.left], and so
    on.  A shape without a text frame has [text_frame = None]
    ([has_text_frame] is false), one without a table has [table = None].
    Every shape carries a position and a size of its own.

    The two attributes the code assigns to go through the setters of the
    library: [shape.left = v] is [Pptx.assign_left], which refuses a value
    outside the range of a coordinate, and [run.text = t] is
    [Pptx.set_text], which stores [t] with its control characters
    escaped. *)
Module Pptx.

Record Run : Type := mkRun {
  text : string;
  bold : option bool;
  italic : option bool
}.

Record Paragraph : Type := mkParagraph {
  runs : list Run;
  level : Z
}.

Record Shape : Type := mkShape {
  name : string;
  left : Z;
  top : Z;
  width : Z;
  height : Z;
  text_frame : option (list Paragraph);
  table : option (list (list string))
}.

(** [notes = None]: the slide has no notes slide. *)
Record Slide : Type := mkSlide {
  shapes : list Shape;
  notes : option string
}.

(** [para.text]: the runs' texts, concatenated. *)
Definition paragraph_text (p : Paragraph) : string :=
  fold_right (fun r acc => text r +:+ acc) EmptyString (runs p).

(** [CT_RegularTextRun._escape], a substitution over the characters of
    the class [\x00-\x08\x0B-\x0C\x0E-\x1F]: a control character other
    than tab, line feed and carriage return is written out as [_xHHHH_],
    with its code in four upper-case hexadecimal digits. *)
Definition is_control (c : ascii) : bool :=
  let n := nat_of_ascii c in
  ((n <=? 8) || (n =? 11) || (n =? 12) || (14 <=? n) && (n <=? 31))%nat.

Definition hex_digit (n : nat) : ascii :=
  if (n <? 10)%nat then ascii_of_nat (48 + n) else ascii_of_nat (55 + n).

Definition escape_sequence (c : ascii) : string :=
  let n := nat_of_ascii c in
  "_x00" +:+ String (hex_digit (n / 16)%nat)
                    (String (hex_digit (n mod 16)%nat) "_").

Fixpoint escape (s : string) : string :=
  match s with
  | EmptyString => EmptyString
  | String c r =>
      if is_control c then escape_sequence c +:+ escape r
      else String c (escape r)
  end.

(** [run.text = t]: the run then holds the escaped text, and [run.text]
    reads it back as it is held. *)
Definition set_text (r : Run) (t : string) : Run :=
  {| text := escape t; bold := bold r; italic := italic r |}.

(** The shape with another left position. *)
Definition set_left (sh : Shape) (x : Z) : Shape :=
  {| name := name sh; left := x; top := top sh; width := width sh;
     height := height sh; text_frame := text_frame sh; table := table sh |}.

(** [ST_Coordinate.validate] on an [int]: a [ValueError] outside the range
    of the schema type. *)
Definition validate_coordinate (value : Z) : outcome unit :=
  if (value <? -27273042329600) || (27273042316900 <? value)
  then Raise ValueError
  else Ok tt.

(** [shape.left = value] for an [int]: the setter validates the value
    before it stores it. *)
Definition assign_left (sh : Shape) (value : Z) : outcome Shape :=
  match validate_coordinate value with
  | Ok _ => Ok (set_left sh value)
  | Raise e => Raise e
  end.

Definition set_text_frame (sh : Shape) (tf : list Paragraph) : Shape :=
  {| name := name sh; left := left sh; top := top sh; width := width sh;
     height := height sh; text_frame := Some tf; table := table sh |}.

Definition set_runs (p : Paragraph) (rs : list Run) : Paragraph :=
  {| runs := rs; level := level p |}.

Definition set_shapes (sl : Slide) (shs : list Shape) : Slide :=
  {| shapes := shs; notes := notes sl |}.

End Pptx.

Abbreviation Presentation := (list Pptx.Slide).

(** The file system: the presentations stored under each path, and the
    paths that cannot be written ([prs.save] raises there). *)
Record World : Type := mkWorld {
  files : gmap string (list Pptx.Slide);
  read_only : gset string
}.

(** [Presentation(path)]. *)
Definition open_presentation (w : World) (path : string) : outcome Presentation :=
  match files w !! path with
  | Some prs => Ok prs
  | None => Raise (PackageNotFoundError path)
  end.

(** [prs.save(path)]. *)
Definition save_presentation (w : World) (prs : Presentation) (path : string)
  : outcome World :=
  if decide (path ∈ read_only w) then Raise (OSError path)
  else Ok {| files := <[path := prs]> (files w); read_only := read_only w |}.

(* ===================================================================== *)
(** ** Data structures of the agent *)
(* ===================================================================== *)

(** [SlideContent]; [shapes] holds the [shape_info] dicts. *)
Record SlideContent : Type := mkSlideContent {
  sc_slide_number : Z;
  sc_shapes : list pyval;
  sc_notes : string
}.

(** [Correction].  The data class declares [int] and [str] fields but
    checks nothing: a field holds whatever value [tool_add_correction] was
    given. *)
Record Correction : Type := mkCorrection {
  slide_number : pyval;
  shape_name : pyval;
  original_text : pyval;
  corrected_text : pyval;
  correction_type : pyval;
  reasoning : pyval
}.

(** A tool call of the model.  [arguments] is the argument string as the
    loop reads it: empty (or absent), not valid JSON, or the text of a JSON
    value. *)
Inductive Arguments : Type :=
| NoArguments
| Malformed
| Json (v : pyval).

Record ToolCall : Type := mkToolCall {
  tc_id : string;
  tc_name : string;
  tc_arguments : Arguments
}.

Record AssistantMessage : Type := mkAssistantMessage {
  content : option string;
  tool_calls : option (list ToolCall)
}.

(** One entry of the transcript.  A tool message keeps the result value
    that [json.dumps] prints into its [content]. *)
Inductive Message : Type :=
| SystemMessage (text : string)
| UserMessage (text : string)
| FromAssistant (m : AssistantMessage)
| ToolMessage (tool_call_id : string) (result : pyval).

Record AgentState : Type := mkAgentState {
  presentation_path : string;
  output_path : string;
  slides_content : list SlideContent;
  pending_corrections : list Correction;
  applied_corrections : list Correction;
  current_task : string;
  iteration : Z;
  is_complete : bool;
  messages : list Message
}.

Definition set_slides_content (st : AgentState) (x : list SlideContent) : AgentState :=
  {| presentation_path := presentation_path st; output_path := output_path st;
     slides_content := x;
     pending_corrections := pending_corrections st;
     applied_corrections := applied_corrections st;
     current_task := current_task st; iteration := iteration st;
     is_complete := is_complete st; messages := messages st |}.

Definition set_pending_corrections (st : AgentState) (x : list Correction) : AgentState :=
  {| presentation_path := presentation_path st; output_path := output_path st;
     slides_content := slides_content st;
     pending_corrections := x;
     applied_corrections := applied_corrections st;
     current_task := current_task st; iteration := iteration st;
     is_complete := is_complete st; messages := messages st |}.

Definition set_applied_corrections (st : AgentState) (x : list Correction) : AgentState :=
  {| presentation_path := presentation_path st; output_path := output_path st;
     slides_content := slides_content st;
     pending_corrections := pending_corrections st;
     applied_corrections := x;
     current_task := current_task st; iteration := iteration st;
     is_complete := is_complete st; messages := messages st |}.

Definition set_iteration (st : AgentState) (x : Z) : AgentState :=
  {| presentation_path := presentation_path st; output_path := output_path st;
     slides_content := slides_content st;
     pending_corrections := pending_corrections st;
     applied_corrections := applied_corrections st;
     current_task := current_task st; iteration := x;
     is_complete := is_complete st; messages := messages st |}.

Definition set_is_complete (st : AgentState) (x : bool) : AgentState :=
  {| presentation_path := presentation_path st; output_path := output_path st;
     slides_content := slides_content st;
     pending_corrections := pending_corrections st;
     applied_corrections := applied_corrections st;
     current_task := current_task st; iteration := iteration st;
     is_complete := x; messages := messages st |}.

Definition set_messages (st : AgentState) (x : list Message) : AgentState :=
  {| presentation_path := presentation_path st; output_path := output_path st;
     slides_content := slides_content st;
     pending_corrections := pending_corrections st;
     applied_corrections := applied_corrections st;
     current_task := current_task st; iteration := iteration st;
     is_complete := is_complete st; messages := x |}.

(* ===================================================================== *)
(** ** The monad of tools: state, file system and exceptions *)
(* ===================================================================== *)

Definition M (A : Type) : Type :=
  AgentState -> World -> outcome A * AgentState * World.

Definition ret {A} (a : A) : M A := fun st w => (Ok a, st, w).

Definition raise {A} (e : exn) : M A := fun st w => (Raise e, st, w).

Definition bind {A B} (c : M A) (k : A -> M B) : M B :=
  fun st w =>
    match c st w with
    | (Ok a, st', w') => k a st' w'
    | (Raise e, st', w') => (Raise e, st', w')
    end.

Notation "'let*' x ':=' c 'in' k" := (bind c (fun x => k))
  (at level 10, x name, c at level 100, k at level 200, only parsing).

Definition get_state : M AgentState := fun st w => (Ok st, st, w).
Definition modify_state (f : AgentState -> AgentState) : M unit :=
  fun st w => (Ok tt, f st, w).
Definition get_world : M World := fun st w => (Ok w, st, w).
Definition put_world (w' : World) : M unit := fun st _ => (Ok tt, st, w').

(** A value or exception computed outside the state. *)
Definition lift {A} (o : outcome A) : M A := fun st w => (o, st, w).

(** Exceptions inside the loops over the opened document, which touch
    neither the state nor the file system. *)
Definition obind {A B} (o : outcome A) (k : A -> outcome B) : outcome B :=
  match o with
  | Ok a => k a
  | Raise e => Raise e
  end.

Notation "'let?' x ':=' c 'in' k" := (obind c (fun x => k))
  (at level 10, x name, c at level 100, k at level 200, only parsing).

(* ===================================================================== *)
(** ** Python operators on values *)
(* ===================================================================== *)

(** [s == v] for a string [s]. *)
Definition str_eq (s : string) (v : pyval) : bool :=
  match v with
  | PStr t => String.eqb s t
  | _ => false
  end.

(** [v - 1]: defined on [int] and [bool]. *)
Definition minus_one (v : pyval) : outcome Z :=
  match v with
  | PInt n => Ok (n - 1)
  | PBool b => Ok ((if b then 1 else 0) - 1)
  | _ => Raise TypeError
  end.

(** [int(v)]: a [ValueError] on a string that is no numeral, a [TypeError]
    on [None], lists and dicts. *)
Definition py_int (v : pyval) : outcome Z :=
  match v with
  | PInt n => Ok n
  | PBool b => Ok (if b then 1 else 0)
  | PStr s => match PyStr.int s with
              | Some n => Ok n
              | None => Raise ValueError
              end
  | _ => Raise TypeError
  end.

(** [v in s] for a string [s]: the left operand must be a string. *)
Definition py_in (v : pyval) (s : string) : outcome bool :=
  match v with
  | PStr sub => Ok (PyStr.contains sub s)
  | _ => Raise TypeError
  end.

(** [s.replace(old, new)]: both arguments must be strings. *)
Definition py_replace (s : string) (old new : pyval) : outcome string :=
  match old, new with
  | PStr o, PStr n => Ok (PyStr.replace o n s)
  | _, _ => Raise TypeError
  end.

Definition py_bool_or_none (b : option bool) : pyval :=
  match b with
  | Some x => PBool x
  | None => PNone
  end.

Definition py_len {A} (l : list A) : Z := Z.of_nat (length l).

(* ===================================================================== *)
(** ** Tools *)
(* ===================================================================== *)

(** *** [tool_extract_slide_content] *)

Definition run_info (r : Pptx.Run) : pyval :=
  PDict [("text", PStr (Pptx.text r));
         ("bold", py_bool_or_none (Pptx.bold r));
         ("italic", py_bool_or_none (Pptx.italic r))].

Definition para_info (p : Pptx.Paragraph) : pyval :=
  PDict [("text", PStr (Pptx.paragraph_text p));
         ("level", PInt (Pptx.level p));
         ("runs", PList (map run_info
                    (filter (fun r => Is_true (PyStr.strip_nonempty (Pptx.text r)))
                            (Pptx.runs p))))].

Definition text_content (sh : Pptx.Shape) : list pyval :=
  match Pptx.text_frame sh with
  | Some paras =>
      map para_info
        (filter (fun p => Is_true (PyStr.strip_nonempty (Pptx.paragraph_text p)))
                paras)
  | None => []
  end.

Definition table_data (rows : list (list string)) : list pyval :=
  map (fun row => PList (map PStr row)) rows.

Definition shape_info (sh : Pptx.Shape) : pyval :=
  PDict ([("name", PStr (Pptx.name sh));
          ("left", PInt (Pptx.left sh));
          ("top", PInt (Pptx.top sh));
          ("width", PInt (Pptx.width sh));
          ("height", PInt (Pptx.height sh));
          ("text_content", PList (text_content sh))]
         ++ match Pptx.table sh with
            | Some rows => [("table", PList (table_data rows))]
            | None => []
            end).

(** [shape_info["text_content"] or shape_info.get("table")]. *)
Definition has_content (sh : Pptx.Shape) : bool :=
  match text_content sh, Pptx.table sh with
  | _ :: _, _ => true
  | [], Some (_ :: _) => true
  | [], _ => false
  end.

Definition slide_shapes_info (sl : Pptx.Slide) : list pyval :=
  map shape_info (filter (fun sh => Is_true (has_content sh)) (Pptx.shapes sl)).

Definition slide_notes (sl : Pptx.Slide) : string :=
  match Pptx.notes sl with
  | Some t => t
  | None => EmptyString
  end.

Definition slide_data (slide_idx : nat) (sl : Pptx.Slide) : pyval :=
  PDict [("slide_number", PInt (Z.of_nat slide_idx + 1));
         ("shapes", PList (slide_shapes_info sl));
         ("notes", PStr (slide_notes sl))].

Definition slide_content (slide_idx : nat) (sl : Pptx.Slide) : SlideContent :=
  {| sc_slide_number := Z.of_nat slide_idx + 1;
     sc_shapes := slide_shapes_info sl;
     sc_notes := slide_notes sl |}.

Definition tool_extract_slide_content : M pyval :=
  let* st := get_state in
  let* w := get_world in
  let* prs := lift (open_presentation w (presentation_path st)) in
  let* _ := modify_state (fun s => set_slides_content s (imap slide_content prs)) in
  ret (PDict [("slides", PList (imap slide_data prs));
              ("total_slides", PInt (py_len prs))]).

(** *** [tool_analyze_alignment] and [find_most_common_position] *)

Record TitlePosition : Type := mkTitlePosition {
  tp_slide : Z;
  tp_name : string;
  tp_left : Z;
  tp_top : Z
}.

Definition title_position_dict (p : TitlePosition) : pyval :=
  PDict [("slide", PInt (tp_slide p)); ("name", PStr (tp_name p));
         ("left", PInt (tp_left p)); ("top", PInt (tp_top p))].

Definition slide_title_positions (slide_idx : nat) (sl : Pptx.Slide)
  : list TitlePosition :=
  map (fun sh => {| tp_slide := Z.of_nat slide_idx + 1;
                    tp_name := Pptx.name sh;
                    tp_left := Pptx.left sh;
                    tp_top := Pptx.top sh |})
      (filter (fun sh => Is_true (PyStr.contains "Title" (Pptx.name sh)))
              (Pptx.shapes sl)).

(** [get_title_placeholder_positions], and the first loop of
    [tool_analyze_alignment]: slide by slide, shape by shape. *)
Definition get_title_placeholder_positions (prs : Presentation)
  : list TitlePosition :=
  concat (imap slide_title_positions prs).

(** [left_counts[left] = left_counts.get(left, 0) + 1] on a dict that keeps
    its insertion order: an existing key is updated in place, a new key goes
    to the end.  Counts are natural numbers. *)
Fixpoint count_left (left_counts : list (Z * nat)) (left : Z) : list (Z * nat) :=
  match left_counts with
  | [] => [(left, 1%nat)]
  | (k, n) :: rest =>
      if Z.eqb k left then (k, S n) :: rest
      else (k, n) :: count_left rest left
  end.

Definition count_lefts (lefts : list Z) : list (Z * nat) :=
  fold_left count_left lefts [].

(** [max(items, key=lambda x: x[1])] after its first item [best]: a later
    item replaces the current one only when its count is strictly larger. *)
Fixpoint max_by_count (best : Z * nat) (items : list (Z * nat)) : Z * nat :=
  match items with
  | [] => best
  | x :: rest =>
      if (snd best <? snd x)%nat then max_by_count x rest
      else max_by_count best rest
  end.

(** The left position that [max(left_counts.items(), ...)[0]] returns for
    the given sequence of left positions; [None] on the empty sequence,
    where both callers return before they count. *)
Definition most_common_left (lefts : list Z) : option Z :=
  match count_lefts lefts with
  | [] => None
  | first :: rest => Some (fst (max_by_count first rest))
  end.

(** [find_most_common_position] of [correct_pptx.py]. *)
Definition find_most_common_position (positions : list TitlePosition) : option Z :=
  match positions with
  | [] => None
  | _ => most_common_left (map tp_left positions)
  end.

Definition tool_analyze_alignment : M pyval :=
  let* st := get_state in
  let* w := get_world in
  let* prs := lift (open_presentation w (presentation_path st)) in
  let title_positions := get_title_placeholder_positions prs in
  match title_positions with
  | [] => ret (PDict [("has_issues", PBool false);
                      ("message", PStr "No titles found")])
  | _ =>
      match most_common_left (map tp_left title_positions) with
      | None => raise ValueError
      | Some most_common =>
          let misaligned :=
            filter (fun p => tp_left p ≠ most_common) title_positions in
          ret (PDict [("has_issues", PBool (0 <? py_len misaligned));
                      ("standard_left_position", PInt most_common);
                      ("misaligned_titles",
                        PList (map title_position_dict misaligned));
                      ("recommendation",
                        PStr ("Align all titles to left position "
                              +:+ pretty most_common +:+ " EMUs"))])
      end
  end.

(** *** [tool_add_correction] *)

Definition tool_add_correction
    (slide_number shape_name original_text corrected_text
     correction_type reasoning : pyval) : M pyval :=
  let correction :=
    {| slide_number := slide_number; shape_name := shape_name;
       original_text := original_text; corrected_text := corrected_text;
       correction_type := correction_type; reasoning := reasoning |} in
  let* _ := modify_state (fun s =>
    set_pending_corrections s (pending_corrections s ++ [correction])) in
  ret (PDict [("status", PStr "added");
              ("correction",
                PDict [("slide", slide_number); ("shape", shape_name);
                       ("type", correction_type);
                       ("original", original_text);
                       ("corrected", corrected_text)])]).

(** *** [tool_apply_all_corrections] *)

(** The entries appended to the local list [applied]. *)
Definition alignment_entry (c : Correction) : pyval :=
  PDict [("slide", slide_number c); ("type", PStr "alignment");
         ("shape", shape_name c)].

Definition text_entry (c : Correction) : pyval :=
  PDict [("slide", slide_number c); ("type", correction_type c);
         ("original", original_text c); ("corrected", corrected_text c)].

(** [for run in para.runs]: the runs after the loop, and [applied]. *)
Fixpoint correct_runs (c : Correction) (rs : list Pptx.Run) (applied : list pyval)
  : outcome (list Pptx.Run * list pyval) :=
  match rs with
  | [] => Ok ([], applied)
  | r :: rest =>
      let? found := py_in (original_text c) (Pptx.text r) in
      if found : bool then
        let? t := py_replace (Pptx.text r) (original_text c) (corrected_text c) in
        let? done := correct_runs c rest (applied ++ [text_entry c]) in
        Ok (Pptx.set_text r t :: fst done, snd done)
      else
        let? done := correct_runs c rest applied in
        Ok (r :: fst done, snd done)
  end.

(** [for para in shape.text_frame.paragraphs]. *)
Fixpoint correct_paragraphs (c : Correction) (ps : list Pptx.Paragraph)
    (applied : list pyval) : outcome (list Pptx.Paragraph * list pyval) :=
  match ps with
  | [] => Ok ([], applied)
  | p :: rest =>
      let? here := correct_runs c (Pptx.runs p) applied in
      let? done := correct_paragraphs c rest (snd here) in
      Ok (Pptx.set_runs p (fst here) :: fst done, snd done)
  end.

(** The body of [if shape.name == correction.shape_name]: the [try] block
    of an alignment correction, or the text replacement in a shape with a
    text frame.  The [try] block holds [int(...)], the assignment to
    [shape.left] and [applied.append]: a [ValueError] of the conversion or
    of the setter is swallowed, and then the shape is as it was and nothing
    is appended. *)
Definition correct_shape (c : Correction) (sh : Pptx.Shape) (applied : list pyval)
  : outcome (Pptx.Shape * list pyval) :=
  if str_eq "alignment" (correction_type c) then
    match (let? new_left := py_int (corrected_text c) in
           Pptx.assign_left sh new_left) with
    | Ok moved => Ok (moved, applied ++ [alignment_entry c])
    | Raise ValueError => Ok (sh, applied)
    | Raise e => Raise e
    end
  else
    match Pptx.text_frame sh with
    | Some paras =>
        let? done := correct_paragraphs c paras applied in
        Ok (Pptx.set_text_frame sh (fst done), snd done)
    | None => Ok (sh, applied)
    end.

(** [for shape in slide.shapes]. *)
Fixpoint correct_shapes (c : Correction) (shs : list Pptx.Shape)
    (applied : list pyval) : outcome (list Pptx.Shape * list pyval) :=
  match shs with
  | [] => Ok ([], applied)
  | sh :: rest =>
      let? here :=
        (if str_eq (Pptx.name sh) (shape_name c)
         then correct_shape c sh applied
         else Ok (sh, applied)) in
      let? done := correct_shapes c rest (snd here) in
      Ok (fst here :: fst done, snd done)
  end.

(** One turn of [for correction in state.pending_corrections]. *)
Definition apply_correction (c : Correction) (prs : Presentation)
    (applied : list pyval) : outcome (Presentation * list pyval) :=
  let? slide_idx := minus_one (slide_number c) in
  if (slide_idx <? 0) || (py_len prs <=? slide_idx) then Ok (prs, applied)
  else
    match prs !! Z.to_nat slide_idx with
    | None => Raise IndexError
    | Some slide =>
        let? done := correct_shapes c (Pptx.shapes slide) applied in
        Ok (<[Z.to_nat slide_idx := Pptx.set_shapes slide (fst done)]> prs,
            snd done)
    end.

Fixpoint apply_corrections (pending : list Correction) (prs : Presentation)
    (applied : list pyval) : outcome (Presentation * list pyval) :=
  match pending with
  | [] => Ok (prs, applied)
  | c :: rest =>
      let? done := apply_correction c prs applied in
      apply_corrections rest (fst done) (snd done)
  end.

Definition no_corrections_result : pyval :=
  PDict [("status", PStr "no_corrections");
         ("message", PStr "No corrections to apply")].

Definition success_result (applied : list pyval) (output_file : string) : pyval :=
  PDict [("status", PStr "success");
         ("corrections_applied", PInt (py_len applied));
         ("details", PList applied);
         ("output_file", PStr output_file)].

Definition tool_apply_all_corrections : M pyval :=
  let* st := get_state in
  match pending_corrections st with
  | [] => ret no_corrections_result
  | _ :: _ =>
      let* w := get_world in
      let* prs := lift (open_presentation w (presentation_path st)) in
      let* done := lift (apply_corrections (pending_corrections st) prs []) in
      let* w' := lift (save_presentation w (fst done) (output_path st)) in
      let* _ := put_world w' in
      let* _ := modify_state (fun s =>
        set_applied_corrections s
          (applied_corrections s ++ pending_corrections s)) in
      let* _ := modify_state (fun s => set_pending_corrections s []) in
      ret (success_result (snd done) (output_path st))
  end.

(** *** [tool_mark_complete] *)

Definition tool_mark_complete : M pyval :=
  let* _ := modify_state (fun s => set_is_complete s true) in
  let* st := get_state in
  ret (PDict [("status", PStr "complete");
              ("total_corrections", PInt (py_len (applied_corrections st)));
              ("output_file", PStr (output_path st))]).

(* ===================================================================== *)
(** ** Configuration *)
(* ===================================================================== *)

Definition MAX_ITERATIONS : Z := 20.

Definition SYSTEM_PROMPT : string :=
"You are a PowerPoint Review Agent. Your job is to review and correct PowerPoint presentations.

Your workflow:
1. First, call extract_slide_content to get all the text from the presentation
2. For each piece of text, call analyze_text_for_errors to check for spelling/grammar issues
3. Call analyze_alignment to check for alignment inconsistencies
4. For each error found, call add_correction to queue the fix
5. Once all errors are identified, call apply_all_corrections to save the fixed presentation
6. Finally, call mark_complete to finish

IMPORTANT RULES:
- Only fix clear spelling and grammar errors
- Do NOT change technical terms or business jargon
- Do NOT rewrite for style - only fix actual errors
- Preserve original meaning
- Be thorough - check ALL text on ALL slides

Process each slide systematically. After analyzing all content and applying corrections, mark the task complete.".

(* ===================================================================== *)
(** ** Tool registry and agent loop *)
(* ===================================================================== *)

(** A registered handler, by the number of arguments it takes after the
    state. *)
Inductive ToolFunction : Type :=
| Function0 (f : M pyval)
| Function2 (f : pyval -> pyval -> M pyval)
| Function6 (f : pyval -> pyval -> pyval -> pyval -> pyval -> pyval -> M pyval).

(** The ["type"] of a declared property. *)
Inductive JsonType : Type :=
| TInteger
| TString
| TEnum (values : list string).

(** An entry of [TOOLS]; [parameters] is given by its ["properties"] and
    ["required"] members. *)
Record ToolEntry : Type := mkToolEntry {
  tool_function : ToolFunction;
  description : string;
  properties : list (string * JsonType);
  required : list string
}.

Fixpoint registry_get (reg : list (string * ToolEntry)) (name : string)
  : option ToolEntry :=
  match reg with
  | [] => None
  | (k, e) :: rest => if String.eqb k name then Some e else registry_get rest name
  end.

(** Calling a handler with the wrong number of arguments is a
    [TypeError]. *)
Definition call0 (f : ToolFunction) : M pyval :=
  match f with
  | Function0 g => g
  | _ => raise TypeError
  end.

Definition call2 (f : ToolFunction) (a b : pyval) : M pyval :=
  match f with
  | Function2 g => g a b
  | _ => raise TypeError
  end.

Definition call6 (f : ToolFunction) (a b c d e g : pyval) : M pyval :=
  match f with
  | Function6 h => h a b c d e g
  | _ => raise TypeError
  end.

(** [json.loads(arguments) if arguments else {}]. *)
Definition load_arguments (a : Arguments) : outcome pyval :=
  match a with
  | NoArguments => Ok (PDict [])
  | Malformed => Raise JSONDecodeError
  | Json v => Ok v
  end.

Definition no_argument_tools : list string :=
  ["extract_slide_content"; "analyze_alignment"; "apply_all_corrections";
   "mark_complete"].

Definition append_message (m : Message) : M unit :=
  modify_state (fun s => set_messages s (messages s ++ [m])).

Section Agent.

(** The two calls to the model-completion collaborator.
    [chat_completion msgs] is the message of the first choice of
    [client.chat.completions.create(messages=msgs, tools=..)] in
    [run_agent], or the exception the call raises.
    [analysis_completion slide_number text] is what
    [tool_analyze_text_for_errors] gets from its own request: the JSON
    value decoded from the reply, or the exception raised by the request
    or by [json.loads]. *)
Variable chat_completion : list Message -> outcome AssistantMessage.
Variable analysis_completion : pyval -> pyval -> outcome pyval.

Definition tool_analyze_text_for_errors (slide_number text : pyval) : M pyval :=
  lift (analysis_completion slide_number text).

Definition TOOLS : list (string * ToolEntry) :=
  [("extract_slide_content",
    {| tool_function := Function0 tool_extract_slide_content;
       description := "Extract all text content from the PowerPoint presentation for analysis";
       properties := []; required := [] |});
   ("analyze_text_for_errors",
    {| tool_function := Function2 tool_analyze_text_for_errors;
       description := "Use AI to analyze specific text for spelling and grammar errors";
       properties := [("slide_number", TInteger); ("text", TString)];
       required := ["slide_number"; "text"] |});
   ("analyze_alignment",
    {| tool_function := Function0 tool_analyze_alignment;
       description := "Analyze alignment consistency of titles and elements across slides";
       properties := []; required := [] |});
   ("add_correction",
    {| tool_function := Function6 tool_add_correction;
       description := "Add a correction to the pending list";
       properties :=
         [("slide_number", TInteger); ("shape_name", TString);
          ("original_text", TString); ("corrected_text", TString);
          ("correction_type",
            TEnum ["spelling"; "grammar"; "alignment"; "formatting"]);
          ("reasoning", TString)];
       required :=
         ["slide_number"; "shape_name"; "original_text"; "corrected_text";
          "correction_type"; "reasoning"] |});
   ("apply_all_corrections",
    {| tool_function := Function0 tool_apply_all_corrections;
       description := "Apply all pending corrections to the presentation and save";
       properties := []; required := [] |});
   ("mark_complete",
    {| tool_function := Function0 tool_mark_complete;
       description := "Mark the review task as complete";
       properties := []; required := [] |})].

(** The [if tool_name in TOOLS: ... else: ...] statement of the loop:
    the value bound to [result]. *)
Definition call_tool (tool_name : string) (tool_args : pyval) : M pyval :=
  match registry_get TOOLS tool_name with
  | Some entry =>
      let tool_fn := tool_function entry in
      if existsb (String.eqb tool_name) no_argument_tools then
        call0 tool_fn
      else if String.eqb tool_name "analyze_text_for_errors" then
        let* a := lift (subscript tool_args "slide_number") in
        let* b := lift (subscript tool_args "text") in
        call2 tool_fn a b
      else if String.eqb tool_name "add_correction" then
        let* a := lift (subscript tool_args "slide_number") in
        let* b := lift (subscript tool_args "shape_name") in
        let* c := lift (subscript tool_args "original_text") in
        let* d := lift (subscript tool_args "corrected_text") in
        let* e := lift (subscript tool_args "correction_type") in
        let* g := lift (subscript tool_args "reasoning") in
        call6 tool_fn a b c d e g
      else
        ret (PDict [("error", PStr ("Unknown tool: " +:+ tool_name))])
  | None =>
      ret (PDict [("error", PStr ("Tool not found: " +:+ tool_name))])
  end.

(** One turn of [for tool_call in assistant_message.tool_calls]. *)
Definition execute_tool_call (tc : ToolCall) : M unit :=
  let* tool_args := lift (load_arguments (tc_arguments tc)) in
  let* result := call_tool (tc_name tc) tool_args in
  append_message (ToolMessage (tc_id tc) result).

Fixpoint execute_tool_calls (tcs : list ToolCall) : M unit :=
  match tcs with
  | [] => ret tt
  | tc :: rest =>
      let* _ := execute_tool_call tc in
      execute_tool_calls rest
  end.

(** The body of the [while] loop up to the completion check. *)
Definition agent_iteration : M unit :=
  let* _ := modify_state (fun s => set_iteration s (iteration s + 1)) in
  let* st := get_state in
  let* assistant_message := lift (chat_completion (messages st)) in
  let* _ := append_message (FromAssistant assistant_message) in
  match tool_calls assistant_message with
  | Some (tc :: rest) => execute_tool_calls (tc :: rest)
  | _ => ret tt
  end.

(** The [while] loop.  [fuel] bounds the number of turns of the model;
    [None] means the bound was too small, which [run_agent] never
    observes (see [agent_loop_fuel]). *)
Fixpoint agent_loop (fuel : nat) (st : AgentState) (w : World)
  : option (outcome unit * AgentState * World) :=
  if negb (is_complete st) && (iteration st <? MAX_ITERATIONS) then
    match fuel with
    | O => None
    | S fuel' =>
        match agent_iteration st w with
        | (Ok _, st', w') =>
            if is_complete st' then Some (Ok tt, st', w')
            else agent_loop fuel' st' w'
        | (Raise e, st', w') => Some (Raise e, st', w')
        end
    end
  else Some (Ok tt, st, w).

Definition correction_detail (c : Correction) : pyval :=
  PDict [("slide", slide_number c); ("type", correction_type c);
         ("original", original_text c); ("corrected", corrected_text c)].

(** The dict that [run_agent] returns. *)
Definition summary (st : AgentState) : pyval :=
  PDict [("iterations", PInt (iteration st));
         ("corrections", PInt (py_len (applied_corrections st)));
         ("output_file", PStr (output_path st));
         ("details", PList (map correction_detail (applied_corrections st)))].

Definition initial_state (presentation_path output_path : string) : AgentState :=
  {| presentation_path := presentation_path;
     output_path := output_path;
     slides_content := [];
     pending_corrections := [];
     applied_corrections := [];
     current_task := "analyze";
     iteration := 0;
     is_complete := false;
     messages :=
       [SystemMessage SYSTEM_PROMPT;
        UserMessage ("Please review and correct the PowerPoint presentation at: "
                     +:+ presentation_path +:+ "
Save the corrected version to: " +:+ output_path)] |}.

(** [run_agent]: the summary or the exception, with the final state and
    file system. *)
Definition run_agent (presentation_path output_path : string) (w : World)
  : option (outcome pyval * AgentState * World) :=
  match agent_loop (Z.to_nat MAX_ITERATIONS)
                   (initial_state presentation_path output_path) w with
  | None => None
  | Some (Ok _, st, w') => Some (Ok (summary st), st, w')
  | Some (Raise e, st, w') => Some (Raise e, st, w')
  end.

End Agent.

(* ===================================================================== *)
(** ** [correct_pptx.py]: the script with fixed corrections *)
(* ===================================================================== *)

(** The script reads more of a table than the agent does: it rewrites the
    runs inside the cells.  Its shapes therefore carry, for a table, the
    paragraphs of every cell.  A slide is the sequence of its shapes, a
    presentation the sequence of its slides; the script reads nothing else
    of them.

    The regular expression engine is a collaborator: [re_sub pattern
    replacement text] stands for [re.sub(pattern, replacement, text,
    flags=re.IGNORECASE)], and [re_sub_groups pattern f text] for
    [re.sub(pattern, f, text)] with a function [f] that is given groups 1
    and 2 of each match. *)
Module CorrectPptx.

Record Shape : Type := mkShape {
  name : string;
  left : Z;
  top : Z;
  width : Z;
  height : Z;
  text_frame : option (list Pptx.Paragraph);
  table : option (list (list (list Pptx.Paragraph)))
}.

Definition set_left (sh : Shape) (x : Z) : Shape :=
  {| name := name sh; left := x; top := top sh; width := width sh;
     height := height sh; text_frame := text_frame sh; table := table sh |}.

(** [shape.left = value], through the validating setter. *)
Definition assign_left (sh : Shape) (value : Z) : outcome Shape :=
  match Pptx.validate_coordinate value with
  | Ok _ => Ok (set_left sh value)
  | Raise e => Raise e
  end.

Definition set_text_frame (sh : Shape) (tf : option (list Pptx.Paragraph)) : Shape :=
  {| name := name sh; left := left sh; top := top sh; width := width sh;
     height := height sh; text_frame := tf; table := table sh |}.

Definition set_table (sh : Shape) (t : option (list (list (list Pptx.Paragraph))))
  : Shape :=
  {| name := name sh; left := left sh; top := top sh; width := width sh;
     height := height sh; text_frame := text_frame sh; table := t |}.

(** The file system of the script. *)
Record Disk : Type := mkDisk {
  files : gmap string (list (list Shape));
  read_only : gset string
}.

Definition newline : string := String (ascii_of_nat 10) EmptyString.

(** [cell.text]: the texts of the paragraphs of the cell, one per line. *)
Fixpoint cell_text (cell : list Pptx.Paragraph) : string :=
  match cell with
  | [] => EmptyString
  | [p] => Pptx.paragraph_text p
  | p :: rest => Pptx.paragraph_text p +:+ newline +:+ cell_text rest
  end.

Definition SPELLING_CORRECTIONS : list (string * string) :=
  [("\biss\b", "is");
   ("\bhavings\b", "has");
   ("\bhaveing\b", "having");
   ("\bissuess\b", "issues");
   ("\btestssss\b", "tests");
   ("\btestsss\b", "tests");
   ("\btestss\b", "tests");
   ("\bteh\b", "the");
   ("\brecieve\b", "receive");
   ("\boccured\b", "occurred");
   ("\bseperately\b", "separately");
   ("\bdefinate\b", "definite");
   ("\boccassion\b", "occasion");
   ("\buntill\b", "until");
   ("\bwich\b", "which");
   ("\bwih\b", "with");
   ("\bwiht\b", "with");
   ("\bthat\s+that\b", "that");
   ("\bthe\s+the\b", "the")].

Definition repeated_pattern : string := "\b(\w*?)([a-zA-Z])\2{2,}\b".

(** [ending[0]], as a string. *)
Definition first_character (s : string) : string :=
  match s with
  | String c _ => String c EmptyString
  | EmptyString => EmptyString
  end.

(** The loop of [fix_repeated] over the endings. *)
Fixpoint first_ending (endings : list string) (prefix char : string) : string :=
  match endings with
  | [] => prefix +:+ char
  | ending :: rest =>
      if String.eqb (first_character ending) char then prefix +:+ ending
      else first_ending rest prefix char
  end.

(** [fix_repeated], on groups 1 and 2 of the match. *)
Definition fix_repeated (prefix char : string) : string :=
  first_ending ["ss"; "s"; "tt"; "t"; "ee"; "e"; "ll"; "l"] prefix char.

Definition quoted_change (a b : string) : string :=
  "'" +:+ a +:+ "' -> '" +:+ b +:+ "'".

Section SpellCheck.

Variable re_sub : string -> string -> string -> string.
Variable re_sub_groups : string -> (string -> string -> string) -> string -> string.

(** One turn of the loop over [SPELLING_CORRECTIONS.items()], on the pair
    of [text] and [corrections]. *)
Definition apply_pattern (acc : string * list string) (entry : string * string)
  : string * list string :=
  let new_text := re_sub (fst entry) (snd entry) (fst acc) in
  if String.eqb new_text (fst acc) then acc
  else (new_text, snd acc ++ [quoted_change (fst entry) (snd entry)]).

Definition simple_spell_check (text : string) : string * list string :=
  let original := text in
  let known := fold_left apply_pattern SPELLING_CORRECTIONS (text, []) in
  let new_text := re_sub_groups repeated_pattern fix_repeated (fst known) in
  let repeated :=
    if String.eqb new_text (fst known) then known
    else (new_text, snd known ++ ["Fixed repeated characters"]) in
  if String.eqb (fst repeated) original then repeated
  else (fst repeated, quoted_change original (fst repeated) :: snd repeated).

(** [get_title_placeholder_positions]: the dicts it collects. *)
Record TitlePlaceholder : Type := mkTitlePlaceholder {
  tp_slide : Z;
  tp_shape_name : string;
  tp_left : Z;
  tp_top : Z;
  tp_width : Z;
  tp_height : Z
}.

Definition slide_title_positions (slide_idx : nat) (slide : list Shape)
  : list TitlePlaceholder :=
  map (fun sh => {| tp_slide := Z.of_nat slide_idx + 1;
                    tp_shape_name := name sh;
                    tp_left := left sh; tp_top := top sh;
                    tp_width := width sh; tp_height := height sh |})
      (filter (fun sh => Is_true (PyStr.contains "Title" (name sh))) slide).

Definition get_title_placeholder_positions (prs : list (list Shape))
  : list TitlePlaceholder :=
  concat (imap slide_title_positions prs).

Definition find_most_common_position (positions : list TitlePlaceholder)
  : option Z :=
  match positions with
  | [] => None
  | _ => most_common_left (map tp_left positions)
  end.

(** The prefix of a message about a shape, and about a table cell. *)
Definition at_shape (slide_num : Z) (shape_name : string) (c : string) : string :=
  "Slide " +:+ pretty slide_num +:+ ", " +:+ shape_name +:+ ": " +:+ c.

Definition at_cell (slide_num : Z) (row_idx cell_idx : nat) (c : string) : string :=
  "Slide " +:+ pretty slide_num +:+ ", Table[" +:+ pretty row_idx +:+ ","
  +:+ pretty cell_idx +:+ "]: " +:+ c.

(** [# Fix title alignment]: the shape after the block, and its message.
    Nothing catches the [ValueError] of the setter. *)
Definition fix_alignment (standard_left : option Z) (slide_num : Z) (sh : Shape)
  : outcome (Shape * list string) :=
  match standard_left with
  | Some standard =>
      if PyStr.contains "Title" (name sh) && negb (left sh =? standard) then
        let? moved := assign_left sh standard in
        Ok (moved,
            [at_shape slide_num (name sh)
               ("Aligned left from " +:+ pretty (left sh) +:+ " to "
                +:+ pretty standard)])
      else Ok (sh, [])
  | None => Ok (sh, [])
  end.

(** The body of [for run in para.runs] under [# Fix text content]. *)
Definition fix_run (slide_num : Z) (shape_name : string) (r : Pptx.Run)
  : Pptx.Run * list string :=
  if PyStr.strip_nonempty (Pptx.text r) then
    let checked := simple_spell_check (Pptx.text r) in
    if String.eqb (fst checked) (Pptx.text r) then (r, [])
    else (Pptx.set_text r (fst checked), map (at_shape slide_num shape_name) (snd checked))
  else (r, []).

Fixpoint fix_runs (slide_num : Z) (shape_name : string) (rs : list Pptx.Run)
  : list Pptx.Run * list string :=
  match rs with
  | [] => ([], [])
  | r :: rest =>
      let here := fix_run slide_num shape_name r in
      let done := fix_runs slide_num shape_name rest in
      (fst here :: fst done, snd here ++ snd done)
  end.

Fixpoint fix_paragraphs (slide_num : Z) (shape_name : string)
    (ps : list Pptx.Paragraph) : list Pptx.Paragraph * list string :=
  match ps with
  | [] => ([], [])
  | p :: rest =>
      let here := fix_runs slide_num shape_name (Pptx.runs p) in
      let done := fix_paragraphs slide_num shape_name rest in
      (Pptx.set_runs p (fst here) :: fst done, snd here ++ snd done)
  end.

(** [run.text, _ = simple_spell_check(run.text)] for every run of every
    paragraph of a cell. *)
Definition recheck_cell (cell : list Pptx.Paragraph) : list Pptx.Paragraph :=
  map (fun p =>
         Pptx.set_runs p
           (map (fun r => Pptx.set_text r (fst (simple_spell_check (Pptx.text r))))
                (Pptx.runs p)))
      cell.

(** The body of [for cell_idx, cell in enumerate(row.cells)]. *)
Definition fix_cell (slide_num : Z) (row_idx cell_idx : nat)
    (cell : list Pptx.Paragraph) : list Pptx.Paragraph * list string :=
  if PyStr.strip_nonempty (cell_text cell) then
    let checked := simple_spell_check (cell_text cell) in
    if String.eqb (fst checked) (cell_text cell) then (cell, [])
    else (recheck_cell cell, map (at_cell slide_num row_idx cell_idx) (snd checked))
  else (cell, []).

Fixpoint fix_cells (slide_num : Z) (row_idx cell_idx : nat)
    (cells : list (list Pptx.Paragraph))
  : list (list Pptx.Paragraph) * list string :=
  match cells with
  | [] => ([], [])
  | cell :: rest =>
      let here := fix_cell slide_num row_idx cell_idx cell in
      let done := fix_cells slide_num row_idx (S cell_idx) rest in
      (fst here :: fst done, snd here ++ snd done)
  end.

Fixpoint fix_rows (slide_num : Z) (row_idx : nat)
    (rows : list (list (list Pptx.Paragraph)))
  : list (list (list Pptx.Paragraph)) * list string :=
  match rows with
  | [] => ([], [])
  | row :: rest =>
      let here := fix_cells slide_num row_idx O row in
      let done := fix_rows slide_num (S row_idx) rest in
      (fst here :: fst done, snd here ++ snd done)
  end.

(** The body of [for shape in slide.shapes]: alignment, then text, then
    table. *)
Definition fix_shape (standard_left : option Z) (slide_num : Z) (sh : Shape)
  : outcome (Shape * list string) :=
  let? aligned := fix_alignment standard_left slide_num sh in
  let texts :=
    match text_frame (fst aligned) with
    | Some paras =>
        let done := fix_paragraphs slide_num (name (fst aligned)) paras in
        (set_text_frame (fst aligned) (Some (fst done)), snd done)
    | None => (fst aligned, [])
    end in
  let tables :=
    match table (fst texts) with
    | Some rows =>
        let done := fix_rows slide_num O rows in
        (set_table (fst texts) (Some (fst done)), snd done)
    | None => (fst texts, [])
    end in
  Ok (fst tables, snd aligned ++ snd texts ++ snd tables).

Fixpoint fix_shapes (standard_left : option Z) (slide_num : Z) (shs : list Shape)
  : outcome (list Shape * list string) :=
  match shs with
  | [] => Ok ([], [])
  | sh :: rest =>
      let? here := fix_shape standard_left slide_num sh in
      let? done := fix_shapes standard_left slide_num rest in
      Ok (fst here :: fst done, snd here ++ snd done)
  end.

(** [for slide_idx, slide in enumerate(prs.slides)]. *)
Fixpoint fix_slides (standard_left : option Z) (slide_idx : nat)
    (prs : list (list Shape)) : outcome (list (list Shape) * list string) :=
  match prs with
  | [] => Ok ([], [])
  | slide :: rest =>
      let? here := fix_shapes standard_left (Z.of_nat slide_idx + 1) slide in
      let? done := fix_slides standard_left (S slide_idx) rest in
      Ok (fst here :: fst done, snd here ++ snd done)
  end.

(** [correct_presentation]: the list it returns or the exception it
    raises, and the file system it leaves.  An exception in the loop ends
    the call before [prs.save]. *)
Definition correct_presentation (input_path output_path : string) (d : Disk)
  : outcome (list string) * Disk :=
  match files d !! input_path with
  | None => (Raise (PackageNotFoundError input_path), d)
  | Some prs =>
      let title_positions := get_title_placeholder_positions prs in
      let standard_left := find_most_common_position title_positions in
      match fix_slides standard_left O prs with
      | Raise e => (Raise e, d)
      | Ok done =>
          if decide (output_path ∈ read_only d)
          then (Raise (OSError output_path), d)
          else (Ok (snd done),
                {| files := <[output_path := fst done]> (files d);
                   read_only := read_only d |})
      end
  end.

End SpellCheck.

End CorrectPptx.

(* ===================================================================== *)
(** ** Specification vocabulary *)
(* ===================================================================== *)

(** *** Replacing every occurrence *)

(** [replaced_all old new s s']: [s'] is [s] with every occurrence of [old]
    replaced by [new] and every other character kept.  Occurrences of a
    non-empty [old] are taken from the left and do not overlap: the first
    one is replaced, and the search goes on behind it.  The empty string
    occurs before every character and at the end of [s]. *)
Inductive replaced_all (old new : string) : string -> string -> Prop :=
| replaced_absent s :
    PyStr.contains old s = false ->
    replaced_all old new s s
| replaced_first pre post post' :
    old <> EmptyString ->
    PyStr.find old (pre +:+ old +:+ post) = Some (String.length pre) ->
    replaced_all old new post post' ->
    replaced_all old new (pre +:+ old +:+ post) (pre +:+ new +:+ post')
| replaced_empty_end :
    old = EmptyString ->
    replaced_all old new EmptyString new
| replaced_empty_char c post post' :
    old = EmptyString ->
    replaced_all old new post post' ->
    replaced_all old new (String c post) (new +:+ String c post').

(** *** What a correction does to a shape *)

(** A text that holds no character that the setter of [run.text]
    escapes. *)
Fixpoint plain (s : string) : bool :=
  match s with
  | EmptyString => true
  | String c r => negb (Pptx.is_control c) && plain r
  end.

(** A run after a text correction, in the words of the claim: same format,
    text with every occurrence replaced. *)
Definition run_replaced (old new : string) (r r' : Pptx.Run) : Prop :=
  Pptx.bold r' = Pptx.bold r /\ Pptx.italic r' = Pptx.italic r /\
  replaced_all old new (Pptx.text r) (Pptx.text r').

(** A run after a text correction, as the code leaves it.  A run without
    the original text is not touched.  A run that holds it keeps its format,
    and its text is the text with every occurrence replaced, in the form in
    which the setter of [run.text] stores it: control characters
    escaped. *)
Definition run_corrected (old new : string) (r r' : Pptx.Run) : Prop :=
  if PyStr.contains old (Pptx.text r) then
    Pptx.bold r' = Pptx.bold r /\ Pptx.italic r' = Pptx.italic r /\
    exists t, replaced_all old new (Pptx.text r) t /\
              Pptx.text r' = Pptx.escape t
  else r' = r.

(** A paragraph and a shape whose runs are related by [R]: the level of
    the paragraph, and the name, geometry and table of the shape are kept;
    a text frame keeps its paragraphs and runs. *)
Definition paragraph_corrected (R : Pptx.Run -> Pptx.Run -> Prop)
    (p p' : Pptx.Paragraph) : Prop :=
  Pptx.level p' = Pptx.level p /\
  Forall2 R (Pptx.runs p) (Pptx.runs p').

Definition text_frame_corrected (R : Pptx.Run -> Pptx.Run -> Prop)
    (sh sh' : Pptx.Shape) : Prop :=
  Pptx.name sh' = Pptx.name sh /\ Pptx.left sh' = Pptx.left sh /\
  Pptx.top sh' = Pptx.top sh /\ Pptx.width sh' = Pptx.width sh /\
  Pptx.height sh' = Pptx.height sh /\ Pptx.table sh' = Pptx.table sh /\
  match Pptx.text_frame sh with
  | Some paras =>
      exists paras', Pptx.text_frame sh' = Some paras' /\
                     Forall2 (paragraph_corrected R) paras paras'
  | None => Pptx.text_frame sh' = None
  end.

(** The left positions that the setter of [shape.left] accepts. *)
Definition accepted_position (n : Z) : bool :=
  (-27273042329600 <=? n) && (n <=? 27273042316900).

(** What the body of [if shape.name == correction.shape_name] does to a
    shape.  An alignment correction moves the shape to the position its
    text denotes, if the text is a numeral and the position is accepted,
    and leaves the shape as it is otherwise.  Any other correction corrects
    the runs of the text frame; with fields that are not strings, a shape
    that comes out at all comes out as it went in. *)
Definition shape_corrected (c : Correction) (sh sh' : Pptx.Shape) : Prop :=
  if str_eq "alignment" (correction_type c) then
    match py_int (corrected_text c) with
    | Ok new_left =>
        if accepted_position new_left then sh' = Pptx.set_left sh new_left
        else sh' = sh
    | Raise _ => sh' = sh
    end
  else
    match original_text c, corrected_text c with
    | PStr old, PStr new => text_frame_corrected (run_corrected old new) sh sh'
    | _, _ => sh' = sh
    end.


(** *** Counting edits *)






(** *** Most common position *)

Definition occurrences (x : Z) (l : list Z) : nat :=
  length (filter (fun y => y = x) l).

(** [v] is a most frequent element of [l]. *)
Definition most_frequent (l : list Z) (v : Z) : Prop :=
  v ∈ l /\ forall u, (occurrences u l <= occurrences v l)%nat.

(** [v] is most frequent in [l], and every element in front of its first
    occurrence is less frequent. *)
Definition first_most_frequent (l : list Z) (v : Z) : Prop :=
  exists pre post, l = pre ++ v :: post /\
    (forall u, (occurrences u l <= occurrences v l)%nat) /\
    (forall u, u ∈ pre -> (occurrences u l < occurrences v l)%nat).

(** *** The document after the pending corrections *)



(** *** Corrections that are skipped *)

Definition slide_out_of_range (c : Correction) (prs : Presentation) : Prop :=
  exists n, slide_number c = PInt n /\ (n < 1 \/ py_len prs < n).

Definition unparsable_alignment (c : Correction) : Prop :=
  exists n s,
    slide_number c = PInt n /\ correction_type c = PStr "alignment" /\
    corrected_text c = PStr s /\ PyStr.int s = None.

(** *** The state after a successful pass of [tool_apply_all_corrections] *)

Definition after_apply (st : AgentState) : AgentState :=
  set_pending_corrections
    (set_applied_corrections st
       (applied_corrections st ++ pending_corrections st)) [].

(** [counts_of l d]: the dict [d] counts the elements of [l]; its keys
    stand in the order in which they first occur in [l]. *)
Record counts_of (l : list Z) (d : list (Z * nat)) : Prop := mkCountsOf {
  counts_nodup : NoDup (map fst d);
  counts_keys : forall u, u ∈ l -> u ∈ map fst d;
  counts_values : forall k n, (k, n) ∈ d -> n = occurrences k l;
  counts_order : forall ks1 k ks2,
    map fst d = ks1 ++ k :: ks2 ->
    exists pre post, l = pre ++ k :: post /\ forall u, u ∈ pre -> u ∈ ks1
}.

(** *** The agent loop *)

(** [frames R c]: whatever [c] returns or raises, the state it leaves is
    related by [R] to the state it started from. *)
Definition frames (R : AgentState -> AgentState -> Prop) {A} (c : M A) : Prop :=
  forall st w, R st (c st w).1.2.

Definition same_iteration (st st' : AgentState) : Prop :=
  iteration st' = iteration st.

Definition same_progress (st st' : AgentState) : Prop :=
  iteration st' = iteration st /\ is_complete st' = is_complete st.

(** The model never asks for the tool [name]. *)
Definition never_requests
    (chat_completion : list Message -> outcome AssistantMessage) (name : string)
  : Prop :=
  forall msgs m calls,
    chat_completion msgs = Ok m -> tool_calls m = Some calls ->
    Forall (fun tc => tc_name tc <> name) calls.

(** The transcript entry for a call of an unregistered tool. *)
Definition tool_not_found (tc : ToolCall) : Message :=
  ToolMessage (tc_id tc)
    (PDict [("error", PStr ("Tool not found: " +:+ tc_name tc))]).

(** *** Validation against the declared schema, as the claim words it *)

Definition has_type (t : JsonType) (v : pyval) : bool :=
  match t, v with
  | TInteger, PInt _ => true
  | TString, PStr _ => true
  | TEnum values, PStr s => existsb (String.eqb s) values
  | _, _ => false
  end.

Definition present (d : list (string * pyval)) (k : string) : bool :=
  match dict_get d k with
  | Some _ => true
  | None => false
  end.

(** Required fields present, types match. *)
Definition validates (e : ToolEntry) (args : pyval) : bool :=
  match args with
  | PDict d =>
      forallb (present d) (required e) &&
      forallb (fun kt => match dict_get d (fst kt) with
                         | Some v => has_type (snd kt) v
                         | None => true
                         end) (properties e)
  | _ => false
  end.

(** The first required field that the arguments lack. *)
Definition first_missing (req : list string) (d : list (string * pyval))
  : option string :=
  find (fun k => negb (present d k)) req.

(** The values of the required fields, in the order of the declaration. *)
Definition required_values (req : list string) (d : list (string * pyval))
  : list pyval :=
  omap (dict_get d) req.

Definition apply_handler (f : ToolFunction) (values : list pyval) : M pyval :=
  match f, values with
  | Function0 g, [] => g
  | Function2 g, [a; b] => g a b
  | Function6 g, [a; b; c; d; e; h] => g a b c d e h
  | _, _ => raise TypeError
  end.

(* ===================================================================== *)
(** ** Further specification vocabulary *)
(* ===================================================================== *)

(** *** What a run keeps *)

(** [later a b]: the pair [b] of a state and a file system can follow the
    pair [a] in a run.  The two paths are the same, the transcript, the
    list of applied corrections and the queue of all corrections (applied,
    then pending) have only grown at their ends, the counter has not gone
    back, a set completion flag is still set, and no file but the one at
    the output path differs. *)
Record later (a b : AgentState * World) : Prop := mkLater {
  later_presentation_path : presentation_path b.1 = presentation_path a.1;
  later_output_path : output_path b.1 = output_path a.1;
  later_messages : messages a.1 `prefix_of` messages b.1;
  later_applied : applied_corrections a.1 `prefix_of` applied_corrections b.1;
  later_queue :
    (applied_corrections a.1 ++ pending_corrections a.1)
    `prefix_of` (applied_corrections b.1 ++ pending_corrections b.1);
  later_iteration : iteration a.1 <= iteration b.1;
  later_complete : is_complete a.1 = true -> is_complete b.1 = true;
  later_read_only : read_only b.2 = read_only a.2;
  later_files :
    forall path, path <> output_path a.1 -> files b.2 !! path = files a.2 !! path
}.

(** [keeps c]: whatever [c] returns or raises, it leaves a state and a
    file system that can follow the ones it started from. *)
Definition keeps {A} (c : M A) : Prop :=
  forall st w, later (st, w) ((c st w).1.2, (c st w).2).

(** Some assistant message of the transcript asks for the tool [name]. *)
Definition asked_for (name : string) (msgs : list Message) : Prop :=
  exists m calls tc,
    FromAssistant m ∈ msgs /\ tool_calls m = Some calls /\
    tc ∈ calls /\ tc_name tc = name.

(** The tool calls of an assistant message, none when [tool_calls] is
    [None]. *)
Definition requested (m : AssistantMessage) : list ToolCall :=
  match tool_calls m with
  | Some calls => calls
  | None => []
  end.

(** [msg] is the tool message that answers the call [tc]. *)
Definition answers (tc : ToolCall) (msg : Message) : Prop :=
  exists result, msg = ToolMessage (tc_id tc) result.

Definition same_messages (st st' : AgentState) : Prop :=
  messages st' = messages st.

(** *** The layout of a document *)

Definition same_format (r r' : Pptx.Run) : Prop :=
  Pptx.bold r' = Pptx.bold r /\ Pptx.italic r' = Pptx.italic r.

Definition paragraph_layout (p p' : Pptx.Paragraph) : Prop :=
  Pptx.level p' = Pptx.level p /\
  Forall2 same_format (Pptx.runs p) (Pptx.runs p').




(** *** What [correct_presentation] does to shapes and titles *)

(** A shape after [correct_presentation]: its name, top, width and height
    are kept; a shape whose name contains ["Title"] stands at the standard
    position, if there is one, and every other shape where it stood. *)
Definition shape_aligned (standard_left : option Z)
    (sh sh' : CorrectPptx.Shape) : Prop :=
  CorrectPptx.name sh' = CorrectPptx.name sh /\
  CorrectPptx.top sh' = CorrectPptx.top sh /\
  CorrectPptx.width sh' = CorrectPptx.width sh /\
  CorrectPptx.height sh' = CorrectPptx.height sh /\
  CorrectPptx.left sh' =
    match standard_left with
    | Some standard =>
        if PyStr.contains "Title" (CorrectPptx.name sh) then standard
        else CorrectPptx.left sh
    | None => CorrectPptx.left sh
    end.


(** The text frame and the table of a shape after [correct_presentation]:
    as many paragraphs, rows, cells and runs, each paragraph at its level
    and each run with its formatting. *)
Definition script_layout (sh sh' : CorrectPptx.Shape) : Prop :=
  match CorrectPptx.text_frame sh, CorrectPptx.text_frame sh' with
  | Some paras, Some paras' => Forall2 paragraph_layout paras paras'
  | None, None => True
  | _, _ => False
  end /\
  match CorrectPptx.table sh, CorrectPptx.table sh' with
  | Some rows, Some rows' =>
      Forall2 (Forall2 (Forall2 paragraph_layout)) rows rows'
  | None, None => True
  | _, _ => False
  end.

(* ===================================================================== *)
(** ** Sample documents, states and models *)
(* ===================================================================== *)

Definition plain_run (t : string) : Pptx.Run :=
  {| Pptx.text := t; Pptx.bold := None; Pptx.italic := None |}.

Definition text_box (name : string) (left : Z) (texts : list string) : Pptx.Shape :=
  {| Pptx.name := name; Pptx.left := left; Pptx.top := 0;
     Pptx.width := 9144000; Pptx.height := 914400;
     Pptx.text_frame :=
       Some [{| Pptx.runs := map plain_run texts; Pptx.level := 0 |}];
     Pptx.table := None |}.

(** One slide: a title and two text boxes that share the name ["Body"]. *)
Definition two_bodies_shapes : list Pptx.Shape :=
  [text_box "Title 1" 457200 ["Overview"];
   text_box "Body" 457200 ["Teh quikc tets"];
   text_box "Body" 457200 ["Teh end"]].

Definition two_bodies_slide : Pptx.Slide :=
  {| Pptx.shapes := two_bodies_shapes; Pptx.notes := None |}.

Definition two_bodies : Presentation := [two_bodies_slide].

(** The same slide with ["Teh"] corrected in both text boxes. *)
Definition corrected_bodies_shapes : list Pptx.Shape :=
  [text_box "Title 1" 457200 ["Overview"];
   text_box "Body" 457200 ["the quikc tets"];
   text_box "Body" 457200 ["the end"]].

Definition corrected_bodies : Presentation :=
  [{| Pptx.shapes := corrected_bodies_shapes; Pptx.notes := None |}].

(** Three slides whose titles stand at 100, 100 and 250: no tie. *)
Definition three_titles : Presentation :=
  [{| Pptx.shapes := [text_box "Title 1" 100 ["One"]]; Pptx.notes := None |};
   {| Pptx.shapes := [text_box "Title 2" 100 ["Two"]]; Pptx.notes := None |};
   {| Pptx.shapes := [text_box "Title 3" 250 ["Three"]]; Pptx.notes := None |}].

(** Two slides whose titles stand at 250 and 100: a tie. *)
Definition tied_titles : Presentation :=
  [{| Pptx.shapes := [text_box "Title 1" 250 ["One"]]; Pptx.notes := None |};
   {| Pptx.shapes := [text_box "Title 2" 100 ["Two"]]; Pptx.notes := None |}].

Definition disk (prs : Presentation) : World :=
  {| files := {[ "deck.pptx" := prs ]}; read_only := ∅ |}.

Definition locked_disk (prs : Presentation) : World :=
  {| files := {[ "deck.pptx" := prs ]}; read_only := {[ "out.pptx" ]} |}.

Definition fresh_state : AgentState := initial_state "deck.pptx" "out.pptx".

Definition with_pending (pending : list Correction) : AgentState :=
  set_pending_corrections fresh_state pending.

Definition text_fix (slide : Z) (shape old new : string) : Correction :=
  {| slide_number := PInt slide; shape_name := PStr shape;
     original_text := PStr old; corrected_text := PStr new;
     correction_type := PStr "spelling"; reasoning := PStr "misspelt" |}.

Definition left_fix (slide : Z) (shape new_left : string) : Correction :=
  {| slide_number := PInt slide; shape_name := PStr shape;
     original_text := PStr "250"; corrected_text := PStr new_left;
     correction_type := PStr "alignment"; reasoning := PStr "off the grid" |}.

(** Models for the two completion calls. *)
Definition silent_analysis (slide_number text : pyval) : outcome pyval :=
  Ok (PDict [("has_errors", PBool false)]).

Definition talkative_model (msgs : list Message) : outcome AssistantMessage :=
  Ok {| content := Some "Let me think about the slides.";
        tool_calls := None |}.

Definition one_call (id name : string) (args : Arguments) : AssistantMessage :=
  {| content := None;
     tool_calls := Some [{| tc_id := id; tc_name := name; tc_arguments := args |}] |}.

(** Asks for [add_correction] and gives no field. *)
Definition careless_model (msgs : list Message) : outcome AssistantMessage :=
  Ok (one_call "call_1" "add_correction" (Json (PDict []))).

(** Asks for a tool that does not exist. *)
Definition confused_model (msgs : list Message) : outcome AssistantMessage :=
  Ok (one_call "call_1" "delete_slide" NoArguments).

(** Asks for a tool that does not exist, with a broken argument string. *)
Definition garbled_model (msgs : list Message) : outcome AssistantMessage :=
  Ok (one_call "call_1" "delete_slide" Malformed).

(** Arguments for [add_correction] with every required field, the slide
    number given as a word. *)
Definition ill_typed_arguments : pyval :=
  PDict [("slide_number", PStr "first"); ("shape_name", PStr "Body");
         ("original_text", PStr "Teh"); ("corrected_text", PStr "the");
         ("correction_type", PStr "spelling"); ("reasoning", PNone)].

Definition ill_typed_correction : Correction :=
  {| slide_number := PStr "first"; shape_name := PStr "Body";
     original_text := PStr "Teh"; corrected_text := PStr "the";
     correction_type := PStr "spelling"; reasoning := PNone |}.

(** A vertical tab: a control character that the setter of [run.text]
    escapes. *)
Definition vertical_tab : string := String (ascii_of_nat 11) EmptyString.


(** The file system [disk prs] after [out] was saved at ["out.pptx"]. *)
Definition disk_with_output (prs out : Presentation) : World :=
  {| files := <["out.pptx" := out]> {[ "deck.pptx" := prs ]}; read_only := ∅ |}.

(** A deck for [correct_pptx.py]: titles at 100, 100 and 250, and a text
    box. *)
Definition script_box (name : string) (left : Z) (texts : list string)
  : CorrectPptx.Shape :=
  {| CorrectPptx.name := name; CorrectPptx.left := left; CorrectPptx.top := 0;
     CorrectPptx.width := 9144000; CorrectPptx.height := 914400;
     CorrectPptx.text_frame :=
       Some [{| Pptx.runs := map plain_run texts; Pptx.level := 0 |}];
     CorrectPptx.table := None |}.

Definition script_deck : list (list CorrectPptx.Shape) :=
  [[script_box "Title 1" 100 ["One"]; script_box "Body" 300 ["teh first"]];
   [script_box "Title 2" 100 ["Two"]];
   [script_box "Title 3" 250 ["Three"]]].

Definition script_deck_aligned : list (list CorrectPptx.Shape) :=
  [[script_box "Title 1" 100 ["One"]; script_box "Body" 300 ["teh first"]];
   [script_box "Title 2" 100 ["Two"]];
   [script_box "Title 3" 100 ["Three"]]].

Definition script_disk : CorrectPptx.Disk :=
  {| CorrectPptx.files := {[ "deck.pptx" := script_deck ]};
     CorrectPptx.read_only := ∅ |}.

Definition script_disk_after : CorrectPptx.Disk :=
  {| CorrectPptx.files :=
       <["out.pptx" := script_deck_aligned]> {[ "deck.pptx" := script_deck ]};
     CorrectPptx.read_only := ∅ |}.

(** A regular expression engine that never finds a match. *)
Definition no_match (pattern replacement text : string) : string := text.

Definition no_match_groups (pattern : string) (f : string -> string -> string)
    (text : string) : string := text.

(** The file system after the script has run again, on its own output. *)
Definition script_disk_twice : CorrectPptx.Disk :=
  {| CorrectPptx.files :=
       <["again.pptx" := script_deck_aligned]>
         (<["out.pptx" := script_deck_aligned]> {[ "deck.pptx" := script_deck ]});
     CorrectPptx.read_only := ∅ |}.

(** Asks for [mark_complete] at once. *)
Definition finishing_model (msgs : list Message) : outcome AssistantMessage :=
  Ok (one_call "call_1" "mark_complete" NoArguments).

(** An engine that knows one word: it turns the text ["teh"] into the
    replacement given for the pattern of that word. *)
Definition one_word_engine (pattern replacement text : string) : string :=
  if String.eqb pattern "\bteh\b" && String.eqb text "teh" then replacement
  else text.

(* ===================================================================== *)
(** ** Strings *)
(* ===================================================================== *)

#[local] Arguments String.append !s1 s2 /.

Example replace_does_not_overlap : PyStr.replace "aa" "b" "aaa" = "ba".
Proof. reflexivity. Qed.

Example replace_of_the_empty_string : PyStr.replace EmptyString "-" "ab" = "-a-b-".
Proof. reflexivity. Qed.

Example replace_in_the_sample_run :
  PyStr.replace "Teh" "the" "Teh quikc tets" = "the quikc tets".
Proof. reflexivity. Qed.

Example int_with_spaces_and_underscore : PyStr.int " 914_400 " = Some 914400.
Proof. reflexivity. Qed.

Example int_negative : PyStr.int "-12" = Some (-12).
Proof. reflexivity. Qed.

Example int_of_a_word : PyStr.int "a bit left" = None.
Proof. reflexivity. Qed.

Example int_trailing_underscore : PyStr.int "12_" = None.
Proof. reflexivity. Qed.

Example int_lone_sign : PyStr.int "+" = None.
Proof. reflexivity. Qed.

Section StringFacts.

Lemma append_empty_r (s : string) : s +:+ EmptyString = s.
Proof. induction s as [|c s IH]; simpl; [reflexivity | now rewrite IH]. Qed.

Lemma append_assoc (a b c : string) : (a +:+ b) +:+ c = a +:+ b +:+ c.
Proof. induction a as [|x a IH]; simpl; [reflexivity | now rewrite IH]. Qed.

Lemma length_append (a b : string) :
  String.length (a +:+ b) = (String.length a + String.length b)%nat.
Proof. induction a as [|x a IH]; simpl; [reflexivity | now rewrite IH]. Qed.

Lemma startswith_append (p s : string) : PyStr.startswith p (p +:+ s) = true.
Proof.
  induction p as [|a p IH]; simpl; [reflexivity|].
  now rewrite Ascii.eqb_refl, IH.
Qed.

Lemma startswith_split (p s : string) :
  PyStr.startswith p s = true -> s = p +:+ PyStr.drop (String.length p) s.
Proof.
  revert s; induction p as [|a p IH]; intros s H; simpl in *; [reflexivity|].
  destruct s as [|b s]; [discriminate|].
  apply andb_prop in H as [Hab Hps].
  apply Ascii.eqb_eq in Hab; subst b.
  simpl. f_equal. now apply IH.
Qed.

Lemma drop_append (p s : string) : PyStr.drop (String.length p) (p +:+ s) = s.
Proof. induction p as [|a p IH]; simpl; [reflexivity | exact IH]. Qed.

(** Skipped characters do not reach the output. *)
Lemma replace_scan_skip (old new : string) (k : nat) (s : string) :
  PyStr.replace_scan old new k s = PyStr.replace_scan old new O (PyStr.drop k s).
Proof.
  revert k; induction s as [|c s IH]; intros [|k]; simpl; try reflexivity.
  apply IH.
Qed.

Lemma replace_scan_match (a : ascii) (o new s : string) :
  PyStr.startswith (String a o) s = true ->
  PyStr.replace_scan (String a o) new O s
  = new +:+ PyStr.replace_scan (String a o) new O
              (PyStr.drop (String.length (String a o)) s).
Proof.
  intros H. destruct s as [|c s]; [discriminate|].
  cbn [PyStr.replace_scan]. rewrite H.
  rewrite replace_scan_skip. simpl. now rewrite Nat.sub_0_r.
Qed.

Lemma replace_scan_copy (old new : string) (c : ascii) (s : string) :
  PyStr.startswith old (String c s) = false ->
  PyStr.replace_scan old new O (String c s)
  = String c (PyStr.replace_scan old new O s).
Proof. intros H. cbn [PyStr.replace_scan]. now rewrite H. Qed.

Lemma contains_empty (s : string) : PyStr.contains EmptyString s = true.
Proof. destruct s; reflexivity. Qed.

Lemma find_contains (sub s : string) :
  PyStr.contains sub s = true <-> exists n, PyStr.find sub s = Some n.
Proof.
  induction s as [|c s IH]; simpl.
  - destruct (PyStr.startswith sub EmptyString); simpl; split; eauto.
    + discriminate.
    + intros [n H]; discriminate.
  - destruct (PyStr.startswith sub (String c s)); simpl; [split; eauto|].
    rewrite IH. split; intros [n H].
    + rewrite H. simpl. eauto.
    + destruct (PyStr.find sub s); [eauto | discriminate].
Qed.

(** Without an occurrence the scan copies the text. *)
Lemma replace_scan_absent (old new s : string) :
  PyStr.contains old s = false -> PyStr.replace_scan old new O s = s.
Proof.
  induction s as [|c s IH]; intros H; [reflexivity|].
  cbn [PyStr.contains] in H. apply orb_false_elim in H as [H1 H2].
  rewrite replace_scan_copy by exact H1. f_equal. now apply IH.
Qed.

(** Up to the first occurrence the scan copies, then it emits [new] and goes
    on behind the occurrence. *)
Lemma replace_scan_first (a : ascii) (o new s : string) (n : nat) :
  PyStr.find (String a o) s = Some n ->
  exists pre post,
    s = pre +:+ String a o +:+ post /\ String.length pre = n /\
    PyStr.replace_scan (String a o) new O s
    = pre +:+ new +:+ PyStr.replace_scan (String a o) new O post.
Proof.
  revert n; induction s as [|c s IH]; intros n H.
  - simpl in H. discriminate.
  - cbn [PyStr.find] in H.
    destruct (PyStr.startswith (String a o) (String c s)) eqn:E.
    + injection H as <-.
      exists EmptyString, (PyStr.drop (String.length (String a o)) (String c s)).
      split; [|split]; [| reflexivity |].
      * exact (startswith_split _ _ E).
      * exact (replace_scan_match a o new _ E).
    + destruct (PyStr.find (String a o) s) as [m|] eqn:F; [|discriminate].
      simpl in H. injection H as <-.
      destruct (IH m eq_refl) as (pre & post & -> & Hlen & Hscan).
      exists (String c pre), post. split; [|split].
      * reflexivity.
      * simpl. now rewrite Hlen.
      * rewrite replace_scan_copy by exact E.
        rewrite Hscan. reflexivity.
Qed.

Lemma replace_scan_spec (a : ascii) (o new : string) (n : nat) (s : string) :
  (String.length s < n)%nat ->
  replaced_all (String a o) new s (PyStr.replace_scan (String a o) new O s).
Proof.
  revert s; induction n as [|n IH]; intros s Hn; [lia|].
  destruct (PyStr.contains (String a o) s) eqn:C.
  - apply find_contains in C as [k Hk].
    destruct (replace_scan_first a o new s k Hk) as (pre & post & -> & Hlen & ->).
    apply replaced_first.
    + discriminate.
    + now rewrite Hk, Hlen.
    + apply IH. rewrite !length_append in Hn. simpl in Hn. lia.
  - rewrite replace_scan_absent by exact C. now apply replaced_absent.
Qed.

Lemma intersperse_spec (new s : string) :
  replaced_all EmptyString new s (PyStr.intersperse new s).
Proof.
  induction s as [|c s IH]; simpl.
  - now apply replaced_empty_end.
  - now apply replaced_empty_char.
Qed.

(** [str.replace] replaces every occurrence and keeps the rest. *)
Lemma replace_spec (old new s : string) :
  replaced_all old new s (PyStr.replace old new s).
Proof.
  destruct old as [|a o]; simpl.
  - apply intersperse_spec.
  - apply (replace_scan_spec a o new (S (String.length s))). lia.
Qed.

Lemma replace_absent (old new s : string) :
  PyStr.contains old s = false -> PyStr.replace old new s = s.
Proof.
  destruct old as [|a o]; intros H.
  - now rewrite contains_empty in H.
  - now apply replace_scan_absent.
Qed.

Lemma append_split_length (a a' b b' : string) :
  a +:+ b = a' +:+ b' -> String.length a = String.length a' ->
  a = a' /\ b = b'.
Proof.
  revert a'; induction a as [|x a IH]; intros [|x' a'] E L; simpl in *;
    try discriminate.
  - now split.
  - injection E as -> E. injection L as L.
    destruct (IH a' E L) as [-> ->]. now split.
Qed.

(** The relation leaves no choice: it determines the text after the
    replacement. *)
Lemma replaced_all_deterministic (old new s t1 t2 : string) :
  replaced_all old new s t1 -> replaced_all old new s t2 -> t1 = t2.
Proof.
  intros H1; revert t2; induction H1 as
    [s A | pre post post1 N F R IH | E | ch post post1 E R IH]; intros t2 H2.
  - inversion H2 as [s' A' | pre' post' post2 N' F' R' Es | E' | ch' p' p2 E' R']; subst.
    + reflexivity.
    + assert (C : PyStr.contains old (pre' +:+ old +:+ post') = true)
        by (apply find_contains; eauto).
      congruence.
    + now rewrite contains_empty in A.
    + now rewrite contains_empty in A.
  - inversion H2 as [s' A' | pre' post' post2 N' F' R' Es | E' | ch' p' p2 E' R' Es];
      subst.
    + assert (C : PyStr.contains old (pre +:+ old +:+ post) = true)
        by (apply find_contains; eauto).
      congruence.
    + rewrite <- Es in F. rewrite F' in F. injection F as L.
      destruct (append_split_length _ _ _ _ Es L) as [-> E2].
      destruct (append_split_length old old post' post E2 eq_refl) as [_ ->].
      f_equal. f_equal. now apply IH.
    + congruence.
    + congruence.
  - inversion H2 as [s' A' | pre' post' post2 N' F' R' Es | E' | ch' p' p2 E' R' Es];
      subst.
    + now rewrite contains_empty in A'.
    + congruence.
    + reflexivity.
  - inversion H2 as [s' A' | pre' post' post2 N' F' R' Es | E' | ch' p' p2 E' R' Es];
      subst.
    + now rewrite contains_empty in A'.
    + congruence.
    + f_equal. f_equal. now apply IH.
Qed.

End StringFacts.

(** *** Escaping *)

Lemma escape_plain (s : string) : plain s = true -> Pptx.escape s = s.
Proof.
  induction s as [|c s IH]; simpl; [reflexivity|].
  intros H. apply andb_prop in H as [C P].
  apply negb_true_iff in C. rewrite C. f_equal. now apply IH.
Qed.

Lemma plain_append (a b : string) : plain (a +:+ b) = plain a && plain b.
Proof.
  induction a as [|c a IH]; simpl; [reflexivity|].
  now rewrite IH, andb_assoc.
Qed.

(** Replacing in a plain text by a plain text gives a plain text. *)
Lemma replaced_all_plain (old new s t : string) :
  replaced_all old new s t -> plain s = true -> plain new = true ->
  plain t = true.
Proof.
  intros R; induction R as
    [s A | pre post post1 N F R IH | E | ch post post1 E R IH]; intros Ps Pn.
  - exact Ps.
  - rewrite !plain_append in *.
    apply andb_prop in Ps as [Ppre Ps]. apply andb_prop in Ps as [_ Ppost].
    rewrite Ppre, Pn. simpl. now apply IH.
  - exact Pn.
  - simpl in Ps. apply andb_prop in Ps as [Pc Ppost].
    rewrite plain_append. simpl. rewrite Pn, Pc. simpl. now apply IH.
Qed.

Example escape_of_a_vertical_tab :
  Pptx.escape ("Over" +:+ String (ascii_of_nat 11) "view") = "Over_x000B_view".
Proof. reflexivity. Qed.

Example escape_keeps_tab_and_line_ends :
  Pptx.escape (String (ascii_of_nat 9)
                 (String (ascii_of_nat 10) (String (ascii_of_nat 13) "a")))
  = String (ascii_of_nat 9)
      (String (ascii_of_nat 10) (String (ascii_of_nat 13) "a")).
Proof. reflexivity. Qed.

Example escape_of_the_last_control_character :
  Pptx.escape (String (ascii_of_nat 31) EmptyString) = "_x001F_".
Proof. reflexivity. Qed.

(* ===================================================================== *)
(** ** The loops of [tool_apply_all_corrections] *)
(* ===================================================================== *)

(** The setter of [shape.left] stores an accepted position and refuses
    every other one. *)
Lemma assign_left_accepted (sh : Pptx.Shape) (n : Z) :
  Pptx.assign_left sh n
  = if accepted_position n then Ok (Pptx.set_left sh n) else Raise ValueError.
Proof.
  unfold Pptx.assign_left, Pptx.validate_coordinate, accepted_position.
  destruct (Z.ltb_spec n (-27273042329600)), (Z.ltb_spec 27273042316900 n),
    (Z.leb_spec (-27273042329600) n), (Z.leb_spec n 27273042316900);
    simpl; try reflexivity; lia.
Qed.

Section ApplyLoops.

Variable c : Correction.

(** *** The list [applied] only grows at its end *)

Lemma correct_runs_log rs applied :
  correct_runs c rs applied
  = let? done := correct_runs c rs [] in Ok (fst done, applied ++ snd done).
Proof.
  revert applied; induction rs as [|r rs IH]; intros applied; simpl.
  - now rewrite app_nil_r.
  - destruct (py_in (original_text c) (Pptx.text r)) as [[|]|e]; simpl; [| |reflexivity].
    + destruct (py_replace _ _ _); simpl; [|reflexivity].
      rewrite (IH (applied ++ _)), (IH [_]).
      destruct (correct_runs c rs []) as [[rs' l]|]; simpl; [|reflexivity].
      now rewrite <- app_assoc.
    + rewrite (IH applied).
      destruct (correct_runs c rs []) as [[rs' l]|]; reflexivity.
Qed.

Lemma correct_paragraphs_log ps applied :
  correct_paragraphs c ps applied
  = let? done := correct_paragraphs c ps [] in Ok (fst done, applied ++ snd done).
Proof.
  revert applied; induction ps as [|p ps IH]; intros applied; simpl.
  - now rewrite app_nil_r.
  - rewrite (correct_runs_log _ applied).
    destruct (correct_runs c (Pptx.runs p) []) as [[rs' l]|]; simpl; [|reflexivity].
    rewrite (IH (applied ++ l)), (IH l).
    destruct (correct_paragraphs c ps []) as [[ps' l']|]; simpl; [|reflexivity].
    now rewrite <- app_assoc.
Qed.

Lemma correct_shape_log sh applied :
  correct_shape c sh applied
  = let? done := correct_shape c sh [] in Ok (fst done, applied ++ snd done).
Proof.
  unfold correct_shape.
  destruct (str_eq "alignment" (correction_type c)).
  - destruct (py_int (corrected_text c)) as [n|[]]; cbn [obind];
      try reflexivity; try (simpl; now rewrite app_nil_r).
    rewrite assign_left_accepted.
    destruct (accepted_position n); simpl; [reflexivity | now rewrite app_nil_r].
  - destruct (Pptx.text_frame sh) as [paras|]; simpl.
    + rewrite (correct_paragraphs_log _ applied).
      destruct (correct_paragraphs c paras []) as [[ps' l]|]; reflexivity.
    + now rewrite app_nil_r.
Qed.

Lemma correct_shapes_log shs applied :
  correct_shapes c shs applied
  = let? done := correct_shapes c shs [] in Ok (fst done, applied ++ snd done).
Proof.
  revert applied; induction shs as [|sh shs IH]; intros applied; simpl.
  - now rewrite app_nil_r.
  - destruct (str_eq (Pptx.name sh) (shape_name c)).
    + rewrite (correct_shape_log _ applied).
      destruct (correct_shape c sh []) as [[sh' l]|]; simpl; [|reflexivity].
      rewrite (IH (applied ++ l)), (IH l).
      destruct (correct_shapes c shs []) as [[shs' l']|]; simpl; [|reflexivity].
      now rewrite <- app_assoc.
    + simpl. rewrite (IH applied).
      destruct (correct_shapes c shs []) as [[shs' l']|]; simpl; [|reflexivity].
      reflexivity.
Qed.

Lemma apply_correction_log prs applied :
  apply_correction c prs applied
  = let? done := apply_correction c prs [] in Ok (fst done, applied ++ snd done).
Proof.
  unfold apply_correction.
  destruct (minus_one (slide_number c)) as [i|]; simpl; [|reflexivity].
  destruct ((i <? 0) || (py_len prs <=? i)); simpl.
  - now rewrite app_nil_r.
  - destruct (prs !! Z.to_nat i) as [slide|]; simpl; [|reflexivity].
    rewrite (correct_shapes_log _ applied).
    destruct (correct_shapes c (Pptx.shapes slide) []) as [[shs' l]|]; reflexivity.
Qed.

(** *** The shape of the document is kept *)

Lemma correct_shapes_length shs applied shs' applied' :
  correct_shapes c shs applied = Ok (shs', applied') -> length shs' = length shs.
Proof.
  revert applied shs' applied'; induction shs as [|sh shs IH];
    intros applied shs' applied' H; simpl in H.
  - now injection H as <- <-.
  - destruct (if str_eq _ _ then _ else _) as [[sh1 l1]|]; simpl in H; [|discriminate].
    destruct (correct_shapes c shs l1) as [[shs1 l2]|] eqn:E; simpl in H; [|discriminate].
    injection H as <- <-. simpl. f_equal. eapply IH, E.
Qed.

Lemma apply_correction_length prs applied prs' applied' :
  apply_correction c prs applied = Ok (prs', applied') -> length prs' = length prs.
Proof.
  unfold apply_correction. intros H.
  destruct (minus_one (slide_number c)) as [i|]; simpl in H; [|discriminate].
  destruct ((i <? 0) || (py_len prs <=? i)).
  - now injection H as <- <-.
  - destruct (prs !! Z.to_nat i) as [slide|]; [|discriminate].
    destruct (correct_shapes c _ applied) as [[shs' l]|]; simpl in H; [|discriminate].
    injection H as <- <-. apply length_insert.
Qed.

(** *** One entry of [applied] per edit *)






End ApplyLoops.

Lemma apply_corrections_length pending : forall prs applied prs' applied',
  apply_corrections pending prs applied = Ok (prs', applied') ->
  length prs' = length prs.
Proof.
  induction pending as [|c pending IH]; intros prs applied prs' applied' H;
    simpl in H.
  - now injection H as <- <-.
  - destruct (apply_correction c prs applied) as [[p1 l1]|] eqn:E;
      simpl in H; [|discriminate].
    apply IH in H. apply apply_correction_length in E. congruence.
Qed.

(* ===================================================================== *)
(** ** Effect of a correction on the shapes of a slide *)
(* ===================================================================== *)

Lemma set_runs_same p : Pptx.set_runs p (Pptx.runs p) = p.
Proof. now destruct p. Qed.

Lemma set_text_frame_same sh paras :
  Pptx.text_frame sh = Some paras -> Pptx.set_text_frame sh paras = sh.
Proof. destruct sh. simpl. now intros ->. Qed.

Section ShapeEffects.

Variable c : Correction.

Lemma correct_runs_typed old new rs applied :
  original_text c = PStr old -> corrected_text c = PStr new ->
  exists rs' applied',
    correct_runs c rs applied = Ok (rs', applied') /\
    Forall2 (run_corrected old new) rs rs'.
Proof.
  intros Ho Hn. revert applied; induction rs as [|r rs IH]; intros applied; simpl.
  - eexists _, _. split; [reflexivity | constructor].
  - rewrite Ho, Hn. simpl.
    destruct (PyStr.contains old (Pptx.text r)) eqn:C; simpl.
    + destruct (IH (applied ++ [text_entry c])) as (rs' & a' & -> & F). simpl.
      eexists _, _. split; [reflexivity|]. constructor; [|exact F].
      unfold run_corrected. rewrite C. repeat split.
      eexists. split; [apply replace_spec | reflexivity].
    + destruct (IH applied) as (rs' & a' & -> & F). simpl.
      eexists _, _. split; [reflexivity|]. constructor; [|exact F].
      unfold run_corrected. now rewrite C.
Qed.

Lemma correct_paragraphs_typed old new ps applied :
  original_text c = PStr old -> corrected_text c = PStr new ->
  exists ps' applied',
    correct_paragraphs c ps applied = Ok (ps', applied') /\
    Forall2 (paragraph_corrected (run_corrected old new)) ps ps'.
Proof.
  intros Ho Hn. revert applied; induction ps as [|p ps IH]; intros applied; simpl.
  - eexists _, _. split; [reflexivity | constructor].
  - destruct (correct_runs_typed old new (Pptx.runs p) applied Ho Hn)
      as (rs' & a1 & -> & F). simpl.
    destruct (IH a1) as (ps' & a2 & -> & G). simpl.
    eexists _, _. split; [reflexivity|]. constructor; [|exact G].
    split; [reflexivity | exact F].
Qed.

Lemma correct_shape_typed old new sh applied :
  str_eq "alignment" (correction_type c) = false ->
  original_text c = PStr old -> corrected_text c = PStr new ->
  exists sh' applied',
    correct_shape c sh applied = Ok (sh', applied') /\
    text_frame_corrected (run_corrected old new) sh sh'.
Proof.
  intros Hty Ho Hn. unfold correct_shape, text_frame_corrected. rewrite Hty.
  destruct (Pptx.text_frame sh) as [paras|] eqn:T.
  - destruct (correct_paragraphs_typed old new paras applied Ho Hn)
      as (ps' & a1 & -> & F). simpl.
    eexists _, _. split; [reflexivity|]. simpl. repeat split.
    exists ps'. split; [reflexivity | exact F].
  - eexists _, _. split; [reflexivity|]. now repeat split.
Qed.

(** With a field that is no string, the loops over the runs return only
    when they had nothing to replace. *)
Lemma correct_runs_ill_typed rs applied rs' applied' :
  (forall old new,
     original_text c = PStr old -> corrected_text c = PStr new -> False) ->
  correct_runs c rs applied = Ok (rs', applied') ->
  rs' = rs /\ applied' = applied.
Proof.
  intros Ill. revert applied rs' applied'; induction rs as [|r rs IH];
    intros applied rs' applied' H; simpl in H.
  - now injection H as <- <-.
  - destruct (original_text c) as [| | |old| |] eqn:O; simpl in H; try discriminate.
    destruct (PyStr.contains old (Pptx.text r)); simpl in H.
    + destruct (corrected_text c) as [| | |new| |] eqn:N; simpl in H;
        try discriminate.
      exfalso. eapply Ill; reflexivity.
    + destruct (correct_runs c rs applied) as [[rs1 l1]|] eqn:E;
        simpl in H; [|discriminate].
      injection H as <- <-. destruct (IH _ _ _ E) as [-> ->]. now split.
Qed.

Lemma correct_paragraphs_ill_typed ps applied ps' applied' :
  (forall old new,
     original_text c = PStr old -> corrected_text c = PStr new -> False) ->
  correct_paragraphs c ps applied = Ok (ps', applied') ->
  ps' = ps /\ applied' = applied.
Proof.
  intros Ill. revert applied ps' applied'; induction ps as [|p ps IH];
    intros applied ps' applied' H; simpl in H.
  - now injection H as <- <-.
  - destruct (correct_runs c (Pptx.runs p) applied) as [[rs1 l1]|] eqn:R;
      simpl in H; [|discriminate].
    destruct (correct_paragraphs c ps l1) as [[ps1 l2]|] eqn:E;
      simpl in H; [|discriminate].
    injection H as <- <-.
    destruct (correct_runs_ill_typed _ _ _ _ Ill R) as [-> ->].
    destruct (IH _ _ _ E) as [-> ->]. now rewrite set_runs_same.
Qed.

Lemma correct_shape_ill_typed sh applied sh' applied' :
  str_eq "alignment" (correction_type c) = false ->
  (forall old new,
     original_text c = PStr old -> corrected_text c = PStr new -> False) ->
  correct_shape c sh applied = Ok (sh', applied') -> sh' = sh.
Proof.
  intros Hty Ill H. unfold correct_shape in H. rewrite Hty in H.
  destruct (Pptx.text_frame sh) as [paras|] eqn:T.
  - destruct (correct_paragraphs c paras applied) as [[ps1 l1]|] eqn:E;
      simpl in H; [|discriminate].
    injection H as <- <-.
    destruct (correct_paragraphs_ill_typed _ _ _ _ Ill E) as [-> _].
    now apply set_text_frame_same.
  - now injection H as <- <-.
Qed.

Lemma correct_shape_effect sh applied sh' applied' :
  correct_shape c sh applied = Ok (sh', applied') -> shape_corrected c sh sh'.
Proof.
  intros H. unfold shape_corrected.
  destruct (str_eq "alignment" (correction_type c)) eqn:Hty.
  - unfold correct_shape in H. rewrite Hty in H.
    destruct (py_int (corrected_text c)) as [n|[]]; cbn [obind] in H;
      try discriminate.
    + rewrite assign_left_accepted in H.
      destruct (accepted_position n); now injection H as <- <-.
    + now injection H as <- <-.
  - destruct (original_text c) as [| | |old| |] eqn:O;
      try (eapply correct_shape_ill_typed;
           [exact Hty | intros ? ? ? ?; congruence | exact H]).
    destruct (corrected_text c) as [| | |new| |] eqn:N;
      try (eapply correct_shape_ill_typed;
           [exact Hty | intros ? ? ? ?; congruence | exact H]).
    destruct (correct_shape_typed old new sh applied Hty O N) as (s & a & E & F).
    rewrite E in H. now injection H as <- <-.
Qed.

Lemma correct_shapes_effect shs applied shs' applied' :
  correct_shapes c shs applied = Ok (shs', applied') ->
  Forall2 (fun sh sh' =>
             if str_eq (Pptx.name sh) (shape_name c)
             then shape_corrected c sh sh' else sh' = sh) shs shs'.
Proof.
  revert applied shs' applied'; induction shs as [|sh shs IH];
    intros applied shs' applied' H; simpl in H.
  - injection H as <- <-. constructor.
  - destruct (str_eq (Pptx.name sh) (shape_name c)) eqn:N.
    + destruct (correct_shape c sh applied) as [[sh1 l1]|] eqn:S;
        simpl in H; [|discriminate].
      destruct (correct_shapes c shs l1) as [[shs1 l2]|] eqn:E;
        simpl in H; [|discriminate].
      injection H as <- <-. constructor; [|eapply IH, E].
      rewrite N. eapply correct_shape_effect, S.
    + simpl in H.
      destruct (correct_shapes c shs applied) as [[shs1 l2]|] eqn:E;
        simpl in H; [|discriminate].
      injection H as <- <-. constructor; [|eapply IH, E].
      now rewrite N.
Qed.

Lemma correct_shapes_typed old new shs applied :
  str_eq "alignment" (correction_type c) = false ->
  original_text c = PStr old -> corrected_text c = PStr new ->
  exists shs' applied', correct_shapes c shs applied = Ok (shs', applied').
Proof.
  intros Hty Ho Hn. revert applied; induction shs as [|sh shs IH];
    intros applied; simpl.
  - eauto.
  - destruct (str_eq (Pptx.name sh) (shape_name c)).
    + destruct (correct_shape_typed old new sh applied Hty Ho Hn)
        as (s & a & -> & _). simpl.
      destruct (IH a) as (shs' & a' & ->). simpl. eauto.
    + simpl. destruct (IH applied) as (shs' & a' & ->). simpl. eauto.
Qed.

(** An alignment correction whose position does not parse changes no
    shape. *)
Lemma correct_shapes_unparsable shs applied :
  str_eq "alignment" (correction_type c) = true ->
  py_int (corrected_text c) = Raise ValueError ->
  correct_shapes c shs applied = Ok (shs, applied).
Proof.
  intros Hty Hint. induction shs as [|sh shs IH]; simpl; [reflexivity|].
  unfold correct_shape. rewrite Hty, Hint.
  destruct (str_eq (Pptx.name sh) (shape_name c)); simpl; now rewrite IH.
Qed.


End ShapeEffects.

(** *** The relations leave no choice *)








Lemma set_shapes_same (sl : Pptx.Slide) : Pptx.set_shapes sl (Pptx.shapes sl) = sl.
Proof. now destruct sl. Qed.

Lemma apply_correction_out_of_range c prs applied i :
  minus_one (slide_number c) = Ok i -> i < 0 \/ py_len prs <= i ->
  apply_correction c prs applied = Ok (prs, applied).
Proof.
  intros Hi Hr. unfold apply_correction. rewrite Hi. simpl.
  destruct (i <? 0) eqn:A; [reflexivity|].
  destruct (py_len prs <=? i) eqn:B; [reflexivity|]. lia.
Qed.

Lemma apply_correction_unparsable c prs applied i :
  minus_one (slide_number c) = Ok i ->
  str_eq "alignment" (correction_type c) = true ->
  py_int (corrected_text c) = Raise ValueError ->
  apply_correction c prs applied = Ok (prs, applied).
Proof.
  intros Hi Hty Hint. unfold apply_correction. rewrite Hi. simpl.
  destruct ((i <? 0) || (py_len prs <=? i)) eqn:R; [reflexivity|].
  apply orb_false_elim in R as [A B].
  destruct (prs !! Z.to_nat i) as [slide|] eqn:L.
  - rewrite correct_shapes_unparsable by assumption. simpl.
    rewrite set_shapes_same. now rewrite list_insert_id.
  - apply lookup_ge_None in L. unfold py_len in B. lia.
Qed.

Lemma apply_corrections_app pre rest : forall prs applied,
  apply_corrections (pre ++ rest) prs applied
  = let? done := apply_corrections pre prs applied in
    apply_corrections rest (fst done) (snd done).
Proof.
  induction pre as [|c pre IH]; intros prs applied; simpl; [reflexivity|].
  destruct (apply_correction c prs applied) as [[p l]|]; simpl; [apply IH | reflexivity].
Qed.


(* ===================================================================== *)
(** ** [tool_apply_all_corrections] as a whole *)
(* ===================================================================== *)

Lemma tool_apply_empty st w :
  pending_corrections st = [] ->
  tool_apply_all_corrections st w = (Ok no_corrections_result, st, w).
Proof.
  intros H. unfold tool_apply_all_corrections, bind, get_state. now rewrite H.
Qed.

Lemma tool_apply_nonempty st w :
  pending_corrections st <> [] ->
  tool_apply_all_corrections st w =
  match open_presentation w (presentation_path st) with
  | Raise e => (Raise e, st, w)
  | Ok prs =>
      match apply_corrections (pending_corrections st) prs [] with
      | Raise e => (Raise e, st, w)
      | Ok done =>
          match save_presentation w (fst done) (output_path st) with
          | Raise e => (Raise e, st, w)
          | Ok w' =>
              (Ok (success_result (snd done) (output_path st)), after_apply st, w')
          end
      end
  end.
Proof.
  intros H. unfold tool_apply_all_corrections, bind, get_state, get_world, lift.
  destruct (pending_corrections st) as [|c rest] eqn:P; [contradiction|].
  destruct (open_presentation w (presentation_path st)) as [prs|]; [|reflexivity].
  destruct (apply_corrections (c :: rest) prs []) as [done|]; [|reflexivity].
  destruct (save_presentation w done.1 (output_path st)) as [w'|]; [|reflexivity].
  unfold put_world, modify_state, ret, after_apply. simpl. now rewrite P.
Qed.

(** C2.  A call with pending corrections either raises and leaves the state
    and the file system as they were, so that nothing has entered
    [applied_corrections], or it has saved the document, and then
    [pending_corrections] is empty and every correction that was pending is
    in [applied_corrections]. *)
Theorem pending_moves_to_applied_after_save (st : AgentState) (w : World) :
  pending_corrections st <> [] ->
  match tool_apply_all_corrections st w with
  | (Ok _, st', w') =>
      (exists prs', save_presentation w prs' (output_path st) = Ok w') /\
      pending_corrections st' = [] /\
      applied_corrections st' = applied_corrections st ++ pending_corrections st /\
      (forall c, c ∈ pending_corrections st -> c ∈ applied_corrections st')
  | (Raise _, st', w') => st' = st /\ w' = w
  end.
Proof.
  intros H. rewrite tool_apply_nonempty by exact H.
  destruct (open_presentation w (presentation_path st)) as [prs|]; [|now split].
  destruct (apply_corrections _ prs []) as [done|]; [|now split].
  destruct (save_presentation w done.1 (output_path st)) as [w'|] eqn:S; [|now split].
  split; [eauto|]. split; [reflexivity|]. split; [reflexivity|].
  intros c Hc. simpl. apply elem_of_app. now right.
Qed.

Lemma pending_moves_to_applied_after_save_witness :
  pending_corrections (with_pending [text_fix 1 "Body" "Teh" "the"]) <> [] /\
  pending_corrections
    (tool_apply_all_corrections
       (with_pending [text_fix 1 "Body" "Teh" "the"]) (disk two_bodies)).1.2 = [] /\
  applied_corrections
    (tool_apply_all_corrections
       (with_pending [text_fix 1 "Body" "Teh" "the"]) (locked_disk two_bodies)).1.2 = [].
Proof.
  assert (N : pending_corrections (with_pending [text_fix 1 "Body" "Teh" "the"]) <> [])
    by discriminate.
  split; [exact N|]. split.
  - pose proof (pending_moves_to_applied_after_save
                  (with_pending [text_fix 1 "Body" "Teh" "the"]) (disk two_bodies) N) as P.
    destruct (tool_apply_all_corrections _ (disk two_bodies)) as [[[r|e] st'] w'] eqn:E.
    + simpl. tauto.
    + vm_compute in E. discriminate.
  - pose proof (pending_moves_to_applied_after_save
                  (with_pending [text_fix 1 "Body" "Teh" "the"])
                  (locked_disk two_bodies) N) as P.
    destruct (tool_apply_all_corrections _ (locked_disk two_bodies))
      as [[[r|e] st'] w'] eqn:E.
    + vm_compute in E. discriminate.
    + simpl. destruct P as [-> _]. reflexivity.
Defined.

(** C3.  With nothing pending the call answers [no_corrections] and touches
    neither the state nor the file system, whatever the file system holds;
    so after a call that returned, a second call is such a no-op and leaves
    every file as the first call left it. *)
Theorem second_apply_is_noop :
  (forall st w,
     pending_corrections st = [] ->
     tool_apply_all_corrections st w = (Ok no_corrections_result, st, w)) /\
  (forall st w r st1 w1,
     tool_apply_all_corrections st w = (Ok r, st1, w1) ->
     pending_corrections st1 = [] /\
     tool_apply_all_corrections st1 w1 = (Ok no_corrections_result, st1, w1)).
Proof.
  split; [exact tool_apply_empty|].
  intros st w r st1 w1 H.
  assert (P : pending_corrections st1 = []).
  { destruct (pending_corrections st) as [|c rest] eqn:E.
    - rewrite tool_apply_empty in H by exact E. now injection H as _ <- _.
    - rewrite tool_apply_nonempty in H by (rewrite E; discriminate).
      destruct (open_presentation w (presentation_path st)); [|discriminate].
      destruct (apply_corrections _ _ []); [|discriminate].
      destruct (save_presentation w _ (output_path st)); [|discriminate].
      now injection H as _ <- _. }
  split; [exact P | now apply tool_apply_empty].
Qed.

Lemma second_apply_is_noop_witness :
  let first := tool_apply_all_corrections
                 (with_pending [text_fix 1 "Body" "Teh" "the"]) (disk two_bodies) in
  tool_apply_all_corrections first.1.2 first.2
  = (Ok no_corrections_result, first.1.2, first.2).
Proof.
  intros first.
  destruct first as [[[r|e] st1] w1] eqn:E.
  - exact (proj2 (proj2 second_apply_is_noop _ _ r st1 w1 E)).
  - vm_compute in E. discriminate.
Defined.

(** What a pass that returned has written, and from what. *)
Lemma tool_apply_output st w r st' w' :
  pending_corrections st <> [] ->
  tool_apply_all_corrections st w = (Ok r, st', w') ->
  exists prs doc details,
    open_presentation w (presentation_path st) = Ok prs /\
    apply_corrections (pending_corrections st) prs [] = Ok (doc, details) /\
    r = success_result details (output_path st) /\
    files w' = <[output_path st := doc]> (files w).
Proof.
  intros N H. rewrite tool_apply_nonempty in H by exact N.
  destruct (open_presentation w (presentation_path st)) as [prs|]; [|discriminate].
  destruct (apply_corrections _ prs []) as [[doc details]|] eqn:A; [|discriminate].
  unfold save_presentation in H.
  destruct (decide (output_path st ∈ read_only w)); [discriminate|].
  injection H as <- <- <-. exists prs, doc, details. auto.
Qed.



(* ===================================================================== *)
(** ** Corrections that are skipped, and shapes that share a name *)
(* ===================================================================== *)

Lemma skipped_correction_any_document c prs prs' applied :
  slide_out_of_range c prs \/ unparsable_alignment c ->
  length prs' = length prs ->
  apply_correction c prs' applied = Ok (prs', applied).
Proof.
  intros [(n & Hn & R) | (n & s & Hn & Hty & Hs & Hint)] L.
  - apply (apply_correction_out_of_range c prs' applied (n - 1)).
    + now rewrite Hn.
    + unfold py_len in *. rewrite L. lia.
  - apply (apply_correction_unparsable c prs' applied (n - 1)).
    + now rewrite Hn.
    + now rewrite Hty.
    + rewrite Hs. simpl. now rewrite Hint.
Qed.

(** C7.  A correction whose slide number is out of range, and an alignment
    correction whose text is no numeral, raises nothing and leaves the
    document and the list of edits as they are; the pass over the pending
    corrections goes on as if the correction were not in the list, and
    [tool_apply_all_corrections] returns the same result and writes the
    same file as it does for the other pending corrections alone. *)
Theorem skipped_corrections_change_nothing (c : Correction) (prs : Presentation) :
  slide_out_of_range c prs \/ unparsable_alignment c ->
  (forall applied, apply_correction c prs applied = Ok (prs, applied)) /\
  (forall before after applied,
     apply_corrections (before ++ c :: after) prs applied
     = apply_corrections (before ++ after) prs applied) /\
  (forall st w before after,
     open_presentation w (presentation_path st) = Ok prs ->
     pending_corrections st = before ++ c :: after ->
     before ++ after <> [] ->
     (tool_apply_all_corrections st w).1.1
     = (tool_apply_all_corrections
          (set_pending_corrections st (before ++ after)) w).1.1 /\
     (tool_apply_all_corrections st w).2
     = (tool_apply_all_corrections
          (set_pending_corrections st (before ++ after)) w).2).
Proof.
  intros H.
  assert (P : forall before after applied,
             apply_corrections (before ++ c :: after) prs applied
             = apply_corrections (before ++ after) prs applied).
  { intros before after applied. rewrite !apply_corrections_app.
    destruct (apply_corrections before prs applied) as [[p1 l1]|] eqn:B;
      simpl; [|reflexivity].
    rewrite (skipped_correction_any_document c prs p1 l1 H); [reflexivity|].
    eapply apply_corrections_length, B. }
  split; [|split; [exact P|]].
  - intros applied. now apply (skipped_correction_any_document c prs).
  - intros st w before after Ho Hp NE.
    rewrite (tool_apply_nonempty st) by (rewrite Hp; now destruct before).
    rewrite (tool_apply_nonempty (set_pending_corrections st (before ++ after)))
      by exact NE.
    simpl. rewrite Ho, Hp, P.
    destruct (apply_corrections (before ++ after) prs []) as [done|]; [|now split].
    destruct (save_presentation w done.1 (output_path st)); now split.
Qed.

Lemma skipped_corrections_change_nothing_witness :
  (slide_out_of_range (text_fix 7 "Body" "Teh" "the") two_bodies \/
   unparsable_alignment (text_fix 7 "Body" "Teh" "the")) /\
  (slide_out_of_range (left_fix 1 "Title 1" "a bit left") two_bodies \/
   unparsable_alignment (left_fix 1 "Title 1" "a bit left")) /\
  apply_correction (text_fix 7 "Body" "Teh" "the") two_bodies [] = Ok (two_bodies, []) /\
  apply_correction (left_fix 1 "Title 1" "a bit left") two_bodies []
  = Ok (two_bodies, []).
Proof.
  assert (A : slide_out_of_range (text_fix 7 "Body" "Teh" "the") two_bodies \/
              unparsable_alignment (text_fix 7 "Body" "Teh" "the")).
  { left. exists 7. split; [reflexivity|]. right. vm_compute. reflexivity. }
  assert (B : slide_out_of_range (left_fix 1 "Title 1" "a bit left") two_bodies \/
              unparsable_alignment (left_fix 1 "Title 1" "a bit left")).
  { right. exists 1, "a bit left". repeat split; reflexivity. }
  split; [exact A|]. split; [exact B|]. split.
  - exact (proj1 (skipped_corrections_change_nothing _ _ A) []).
  - exact (proj1 (skipped_corrections_change_nothing _ _ B) []).
Defined.

Example skipped_corrections_in_a_pass :
  (tool_apply_all_corrections
     (with_pending [text_fix 7 "Body" "Teh" "the";
                    left_fix 1 "Title 1" "a bit left";
                    text_fix 1 "Body" "Teh" "the"]) (disk two_bodies)).1.1
  = Ok (success_result [text_entry (text_fix 1 "Body" "Teh" "the");
                        text_entry (text_fix 1 "Body" "Teh" "the")] "out.pptx").
Proof. vm_compute. reflexivity. Qed.


Example apply_corrects_both_bodies :
  files (tool_apply_all_corrections
           (with_pending [text_fix 1 "Body" "Teh" "the"]) (disk two_bodies)).2
    !! "out.pptx"
  = Some corrected_bodies.
Proof. vm_compute. reflexivity. Qed.

(** The largest position a shape accepts is assigned and logged; the next
    one is refused inside the [try] block: the shape stays where it was and
    nothing is logged. *)
Example largest_position_is_assigned :
  correct_shapes (left_fix 1 "Title 1" "27273042316900")
                 [text_box "Title 1" 457200 ["Overview"]] []
  = Ok ([text_box "Title 1" 27273042316900 ["Overview"]],
        [alignment_entry (left_fix 1 "Title 1" "27273042316900")]).
Proof. vm_compute. reflexivity. Qed.

Example refused_position_leaves_the_shape :
  correct_shapes (left_fix 1 "Title 1" "27273042316901")
                 [text_box "Title 1" 457200 ["Overview"]] []
  = Ok ([text_box "Title 1" 457200 ["Overview"]], []) /\
  correct_shapes (left_fix 1 "Title 1" "-27273042329601")
                 [text_box "Title 1" 457200 ["Overview"]] []
  = Ok ([text_box "Title 1" 457200 ["Overview"]], []).
Proof. split; vm_compute; reflexivity. Qed.



(** The claim of C6 as it is worded: every run of a corrected shape holds
    its text with the occurrences replaced and the rest unchanged.  It
    fails for a corrected text with a vertical tab: the run ["Overview"],
    corrected from ["Over"] to ["Over"] and a vertical tab, reads
    ["Over_x000B_view"]. *)
Lemma control_characters_are_escaped :
  ~ (forall (c : Correction) (old new : string) (shs shs' : list Pptx.Shape)
            (applied applied' : list pyval),
       str_eq "alignment" (correction_type c) = false ->
       original_text c = PStr old -> corrected_text c = PStr new ->
       correct_shapes c shs applied = Ok (shs', applied') ->
       Forall2 (fun sh sh' =>
                  if str_eq (Pptx.name sh) (shape_name c)
                  then text_frame_corrected (run_replaced old new) sh sh'
                  else sh' = sh)
               shs shs').
Proof.
  intros H.
  specialize (H (text_fix 1 "Body" "Over" ("Over" +:+ vertical_tab))
                "Over" ("Over" +:+ vertical_tab)
                [text_box "Body" 457200 ["Overview"]]
                [text_box "Body" 457200 ["Over_x000B_view"]]
                [] [text_entry (text_fix 1 "Body" "Over" ("Over" +:+ vertical_tab))]
                eq_refl eq_refl eq_refl eq_refl).
  apply Forall2_cons_1 in H as [H _].
  change (str_eq _ _) with true in H. cbv iota in H.
  destruct H as (_ & _ & _ & _ & _ & _ & paras' & E & F).
  injection E as <-.
  apply Forall2_cons_1 in F as [[_ F] _].
  apply Forall2_cons_1 in F as [(_ & _ & R) _].
  pose proof (replace_spec "Over" ("Over" +:+ vertical_tab) "Overview") as S.
  pose proof (replaced_all_deterministic _ _ _ _ _ R S) as D.
  vm_compute in D. discriminate.
Qed.

(** C6, amended.  A text correction (any type but ["alignment"]) with
    string fields goes through the shapes of a slide without raising.  In
    every shape of the wanted name, a run that holds [original_text] keeps
    its format and gets, in the form in which the setter of [run.text]
    stores it, its text with all occurrences of [original_text] replaced by
    [corrected_text] and the rest unchanged; a run without [original_text]
    is not touched, and nothing else in the shape changes; the other shapes
    are left as they are.  When neither the text of the run nor
    [corrected_text] holds a control character that the setter escapes, the
    run holds exactly the replaced text.  On the sample deck the run
    ["Teh quikc tets"] becomes ["the quikc tets"]. *)
Theorem text_correction_replaces_every_occurrence :
  (forall (c : Correction) (old new : string) (shs : list Pptx.Shape)
          (applied : list pyval),
     str_eq "alignment" (correction_type c) = false ->
     original_text c = PStr old -> corrected_text c = PStr new ->
     exists shs' applied',
       correct_shapes c shs applied = Ok (shs', applied') /\
       Forall2 (fun sh sh' =>
                  if str_eq (Pptx.name sh) (shape_name c)
                  then text_frame_corrected (run_corrected old new) sh sh'
                  else sh' = sh)
               shs shs') /\
  (forall (old new : string) (r r' : Pptx.Run),
     plain (Pptx.text r) = true -> plain new = true ->
     run_corrected old new r r' -> run_replaced old new r r') /\
  correct_shapes (text_fix 1 "Body" "Teh" "the")
                 [text_box "Body" 457200 ["Teh quikc tets"]] []
  = Ok ([text_box "Body" 457200 ["the quikc tets"]],
        [text_entry (text_fix 1 "Body" "Teh" "the")]).
Proof.
  split; [|split; [|vm_compute; reflexivity]].
  - intros c old new shs applied Hty Ho Hn.
    destruct (correct_shapes_typed c old new shs applied Hty Ho Hn) as (shs' & a' & E).
    exists shs', a'. split; [exact E|].
    apply correct_shapes_effect in E.
    eapply Forall2_impl; [exact E|]. intros sh sh' P. simpl in P.
    destruct (str_eq (Pptx.name sh) (shape_name c)); [|exact P].
    unfold shape_corrected in P. now rewrite Hty, Ho, Hn in P.
  - intros old new r r' Pr Pn. unfold run_corrected, run_replaced.
    destruct (PyStr.contains old (Pptx.text r)) eqn:C.
    + intros (B & I & t & R & T). split; [exact B|]. split; [exact I|].
      rewrite T, escape_plain; [exact R|].
      eapply replaced_all_plain; eassumption.
    + intros ->. split; [reflexivity|]. split; [reflexivity|].
      now apply replaced_absent.
Qed.

Lemma text_correction_replaces_every_occurrence_witness :
  (exists shs' applied',
     correct_shapes (text_fix 1 "Body" "Teh" "the")
                    [text_box "Body" 457200 ["Teh quikc tets"; "Teh Teh"]] []
     = Ok (shs', applied') /\
     Forall2 (fun sh sh' =>
                if str_eq (Pptx.name sh) (PStr "Body")
                then text_frame_corrected (run_corrected "Teh" "the") sh sh'
                else sh' = sh)
             [text_box "Body" 457200 ["Teh quikc tets"; "Teh Teh"]] shs') /\
  run_replaced "Teh" "the" (plain_run "Teh Teh") (plain_run "the the").
Proof.
  split.
  - apply (proj1 text_correction_replaces_every_occurrence
             (text_fix 1 "Body" "Teh" "the") "Teh" "the"); reflexivity.
  - apply (proj1 (proj2 text_correction_replaces_every_occurrence)
             "Teh" "the" (plain_run "Teh Teh") (plain_run "the the"));
      [reflexivity | reflexivity |].
    split; [reflexivity|]. split; [reflexivity|].
    exists "the the". split; [|reflexivity].
    exact (replace_spec "Teh" "the" "Teh Teh").
Defined.

(* ===================================================================== *)
(** ** The most common left position *)
(* ===================================================================== *)

Section MostCommon.

Lemma count_left_new d x :
  x ∉ map fst d -> count_left d x = d ++ [(x, 1%nat)].
Proof.
  induction d as [|[k n] d IH]; intros H; simpl; [reflexivity|].
  simpl in H. apply not_elem_of_cons in H as [Hk Hd].
  destruct (Z.eqb_spec k x); [congruence|]. f_equal. now apply IH.
Qed.

Lemma count_left_old d1 x n d2 :
  x ∉ map fst d1 ->
  count_left (d1 ++ (x, n) :: d2) x = d1 ++ (x, S n) :: d2.
Proof.
  induction d1 as [|[k m] d1 IH]; intros H; simpl.
  - now rewrite Z.eqb_refl.
  - simpl in H. apply not_elem_of_cons in H as [Hk Hd].
    destruct (Z.eqb_spec k x); [congruence|]. f_equal. now apply IH.
Qed.

Lemma count_lefts_snoc l x :
  count_lefts (l ++ [x]) = count_left (count_lefts l) x.
Proof. unfold count_lefts. now rewrite fold_left_app. Qed.

Lemma occurrences_snoc u l x :
  occurrences u (l ++ [x])
  = (occurrences u l + if decide (x = u) then 1 else 0)%nat.
Proof.
  unfold occurrences. rewrite filter_app, length_app. f_equal.
  rewrite filter_cons. destruct (decide (x = u)); reflexivity.
Qed.

Lemma occurrences_positive u l : u ∈ l -> (0 < occurrences u l)%nat.
Proof.
  intros H. unfold occurrences.
  assert (I : u ∈ filter (fun y => y = u) l) by (apply list_elem_of_filter; auto).
  destruct (filter (fun y => y = u) l); [inversion I | simpl; lia].
Qed.

Lemma counts_of_step l d x :
  counts_of l d -> counts_of (l ++ [x]) (count_left d x).
Proof.
  intros [ND K V Ord].
  destruct (decide (x ∈ map fst d)) as [I|N].
  - apply list_elem_of_fmap in I as ([k n] & Ek & I). simpl in Ek. subst k.
    apply list_elem_of_split in I as (d1 & d2 & ->).
    assert (N1 : x ∉ map fst d1).
    { rewrite map_app in ND. simpl in ND. apply NoDup_app in ND as (_ & ND & _).
      intros I1. apply (ND x I1). left. }
    rewrite count_left_old by exact N1.
    assert (Ekeys : map fst (d1 ++ (x, S n) :: d2) = map fst (d1 ++ (x, n) :: d2))
      by (now rewrite !map_app).
    split.
    + now rewrite Ekeys.
    + intros u Hu. rewrite Ekeys. apply elem_of_app in Hu as [Hu|Hu]; [auto|].
      apply list_elem_of_singleton in Hu as ->.
      rewrite map_app. apply elem_of_app. right. left.
    + intros k m Hk. rewrite occurrences_snoc.
      apply elem_of_app in Hk as [Hk|Hk]; [|apply elem_of_cons in Hk as [Hk|Hk]].
      * assert (k <> x).
        { intros ->. apply N1. apply list_elem_of_fmap. now exists (x, m). }
        rewrite (V k m) by (apply elem_of_app; now left).
        destruct (decide (x = k)); [congruence | lia].
      * injection Hk as -> ->.
        rewrite <- (V x n) by (apply elem_of_app; right; left).
        destruct (decide (x = x)); [lia | congruence].
      * assert (k <> x).
        { intros ->. rewrite map_app in ND. simpl in ND.
          apply NoDup_app in ND as (_ & _ & ND). apply NoDup_cons in ND as [ND _].
          apply ND. apply list_elem_of_fmap. now exists (x, m). }
        rewrite (V k m) by (apply elem_of_app; right; now right).
        destruct (decide (x = k)); [congruence | lia].
    + intros ks1 k ks2 E. rewrite Ekeys in E.
      destruct (Ord ks1 k ks2 E) as (pre & post & -> & P).
      exists pre, (post ++ [x]). split; [|exact P].
      now rewrite <- app_assoc.
  - rewrite count_left_new by exact N. split.
    + rewrite map_app. simpl. apply NoDup_app. split; [exact ND|]. split.
      * intros u Hu Hx. apply list_elem_of_singleton in Hx as ->. contradiction.
      * apply NoDup_singleton.
    + intros u Hu. rewrite map_app. apply elem_of_app.
      apply elem_of_app in Hu as [Hu|Hu]; [left; auto | right; exact Hu].
    + intros k m Hk. rewrite occurrences_snoc.
      apply elem_of_app in Hk as [Hk|Hk].
      * assert (k <> x).
        { intros ->. apply N. apply list_elem_of_fmap. now exists (x, m). }
        rewrite (V k m Hk). destruct (decide (x = k)); [congruence | lia].
      * apply list_elem_of_singleton in Hk. injection Hk as -> ->.
        assert (Z0 : occurrences x l = O).
        { destruct (occurrences x l) eqn:Eo; [reflexivity|].
          exfalso. apply N, K. unfold occurrences in Eo.
          destruct (filter (fun y => y = x) l) as [|y f] eqn:F; [discriminate|].
          assert (I : y ∈ filter (fun y => y = x) l) by (rewrite F; left).
          apply list_elem_of_filter in I as [-> I]. exact I. }
        rewrite Z0. destruct (decide (x = x)); [lia | congruence].
    + intros ks1 k ks2 E. rewrite map_app in E. simpl in E.
      destruct ks2 as [|z ks2 _] using rev_ind.
      * apply app_inj_tail in E as [<- <-].
        exists l, []. split; [reflexivity | exact K].
      * rewrite app_comm_cons, app_assoc in E.
        apply app_inj_tail in E as [E <-].
        destruct (Ord ks1 k ks2 E) as (pre & post & -> & P).
        exists pre, (post ++ [x]). split; [|exact P].
        now rewrite <- app_assoc.
Qed.

Lemma counts_of_count_lefts l : counts_of l (count_lefts l).
Proof.
  induction l as [|x l IH] using rev_ind.
  - split; simpl.
    + constructor.
    + intros u H. inversion H.
    + intros k n H. inversion H.
    + intros ks1 k ks2 E. destruct ks1; discriminate.
  - rewrite count_lefts_snoc. now apply counts_of_step.
Qed.

(** [max] returns the first of the items with the largest count. *)
Lemma max_by_count_first items : forall best,
  exists before after,
    best :: items = before ++ max_by_count best items :: after /\
    (forall x, x ∈ before -> (snd x < snd (max_by_count best items))%nat) /\
    (forall x, x ∈ after -> (snd x <= snd (max_by_count best items))%nat).
Proof.
  induction items as [|x items IH]; intros best; simpl.
  - exists [], []. split; [reflexivity|]. split; intros x H; inversion H.
  - destruct (Nat.ltb_spec (snd best) (snd x)) as [L|L].
    + destruct (IH x) as (before & after & E & B & A).
      exists (best :: before), after. split; [simpl; f_equal; exact E|].
      split; [|exact A].
      intros y Hy. apply elem_of_cons in Hy as [->|Hy]; [|auto].
      destruct before as [|b before].
      * injection E as E _. rewrite <- E. exact L.
      * injection E as <- _. specialize (B x ltac:(left)). lia.
    + destruct (IH best) as (before & after & E & B & A).
      destruct before as [|b before].
      * injection E as E1 E2. exists [], (x :: after).
        split; [simpl; f_equal; [exact E1 | f_equal; exact E2]|].
        split; [intros y Hy; inversion Hy|].
        intros y Hy. apply elem_of_cons in Hy as [->|Hy]; [|auto].
        rewrite <- E1. exact L.
      * injection E as <- E. exists (best :: x :: before), after.
        split; [simpl; do 2 f_equal; exact E|]. split; [|exact A].
        intros y Hy. apply elem_of_cons in Hy as [->|Hy]; [apply B; left|].
        apply elem_of_cons in Hy as [->|Hy]; [|apply B; now right].
        specialize (B best ltac:(left)). lia.
Qed.

Lemma most_common_left_first l :
  l <> [] -> exists v, most_common_left l = Some v /\ first_most_frequent l v.
Proof.
  intros NE. pose proof (counts_of_count_lefts l) as [ND K V Ord].
  unfold most_common_left.
  destruct (count_lefts l) as [|first rest] eqn:D.
  - destruct l as [|x l]; [contradiction|].
    specialize (K x ltac:(left)). inversion K.
  - destruct (max_by_count_first rest first) as (before & after & E & B & A).
    destruct (max_by_count first rest) as [v n] eqn:M. cbn [fst snd] in *.
    exists v. split; [reflexivity|].
    assert (Hn : n = occurrences v l).
    { apply V. rewrite E. apply elem_of_app. right. left. }
    assert (Ekeys : map fst (first :: rest) = map fst before ++ v :: map fst after)
      by (now rewrite E, map_app).
    destruct (Ord _ _ _ Ekeys) as (pre & post & El & P).
    exists pre, post. split; [exact El|]. split.
    + intros u. destruct (decide (u ∈ l)) as [I|NI].
      * apply K, list_elem_of_fmap in I as ([k m] & Ek & I). simpl in Ek. subst k.
        rewrite <- (V u m I), <- Hn.
        rewrite E in I. apply elem_of_app in I as [I|I].
        { specialize (B _ I). simpl in B. lia. }
        apply elem_of_cons in I as [I|I].
        { injection I as _ ->. lia. }
        specialize (A _ I). exact A.
      * assert (Z0 : occurrences u l = O); [|lia].
        destruct (occurrences u l) eqn:Eo; [reflexivity|]. exfalso. apply NI.
        unfold occurrences in Eo.
        destruct (filter (fun y => y = u) l) as [|y f] eqn:F; [discriminate|].
        assert (I : y ∈ filter (fun y => y = u) l) by (rewrite F; left).
        apply list_elem_of_filter in I as [-> I]. exact I.
    + intros u Hu. apply P, list_elem_of_fmap in Hu as ([k m] & Ek & I).
      simpl in Ek. subst k.
      assert (Im : (u, m) ∈ first :: rest) by (rewrite E; apply elem_of_app; now left).
      rewrite <- (V u m Im), <- Hn. exact (B _ I).
Qed.

End MostCommon.

Lemma tool_analyze_alignment_titles st w prs v :
  open_presentation w (presentation_path st) = Ok prs ->
  get_title_placeholder_positions prs <> [] ->
  most_common_left (map tp_left (get_title_placeholder_positions prs)) = Some v ->
  exists r,
    tool_analyze_alignment st w = (Ok r, st, w) /\
    subscript r "standard_left_position" = Ok (PInt v).
Proof.
  intros Ho Ht Hm.
  unfold tool_analyze_alignment, bind, get_state, get_world, lift. rewrite Ho.
  destruct (get_title_placeholder_positions prs) as [|t ts] eqn:T; [contradiction|].
  rewrite Hm. eexists. split; reflexivity.
Qed.

Example three_titles_standard_position :
  (tool_analyze_alignment fresh_state (disk three_titles)).1.1
  = Ok (PDict [("has_issues", PBool true);
               ("standard_left_position", PInt 100);
               ("misaligned_titles",
                 PList [PDict [("slide", PInt 3); ("name", PStr "Title 3");
                               ("left", PInt 250); ("top", PInt 0)]]);
               ("recommendation",
                 PStr "Align all titles to left position 100 EMUs")]).
Proof. vm_compute. reflexivity. Qed.

(** With titles at 250 and 100, once each, the standard position is 250,
    the one seen first, and not 100, the smaller one. *)
Lemma tie_goes_to_the_position_seen_first :
  ~ (forall st w prs r v,
       open_presentation w (presentation_path st) = Ok prs ->
       tool_analyze_alignment st w = (Ok r, st, w) ->
       subscript r "standard_left_position" = Ok (PInt v) ->
       forall u,
         most_frequent (map tp_left (get_title_placeholder_positions prs)) u ->
         v <= u).
Proof.
  intros H.
  specialize (H fresh_state (disk tied_titles) tied_titles _ 250
                eq_refl eq_refl eq_refl 100).
  assert (M : most_frequent
                (map tp_left (get_title_placeholder_positions tied_titles)) 100).
  { split.
    - vm_compute. right. left.
    - intros u. change (map tp_left (get_title_placeholder_positions tied_titles))
        with [250; 100].
      unfold occurrences. rewrite !filter_cons, filter_nil.
      repeat case_decide; simpl; lia. }
  specialize (H M). lia.
Qed.

(** C8, amended.  The most common left position is a deterministic choice:
    among the positions of highest frequency it is the one that occurs
    first in the sequence of title shapes (slide by slide, shape by shape),
    for [find_most_common_position] and for the [standard_left_position] of
    [tool_analyze_alignment] alike. *)
Theorem standard_position_is_first_most_frequent :
  (forall positions,
     positions <> [] ->
     exists v, find_most_common_position positions = Some v /\
               first_most_frequent (map tp_left positions) v) /\
  (forall st w prs,
     open_presentation w (presentation_path st) = Ok prs ->
     get_title_placeholder_positions prs <> [] ->
     exists r v,
       tool_analyze_alignment st w = (Ok r, st, w) /\
       subscript r "standard_left_position" = Ok (PInt v) /\
       first_most_frequent
         (map tp_left (get_title_placeholder_positions prs)) v).
Proof.
  split.
  - intros positions NE.
    assert (NE' : map tp_left positions <> []) by (destruct positions; [congruence | discriminate]).
    destruct (most_common_left_first _ NE') as (v & E & F).
    exists v. split; [|exact F].
    destruct positions; [contradiction | exact E].
  - intros st w prs Ho Ht.
    assert (NE' : map tp_left (get_title_placeholder_positions prs) <> []).
    { destruct (get_title_placeholder_positions prs); [congruence | discriminate]. }
    destruct (most_common_left_first _ NE') as (v & E & F).
    destruct (tool_analyze_alignment_titles st w prs v Ho Ht E) as (r & R & S).
    exists r, v. auto.
Qed.

Lemma standard_position_is_first_most_frequent_witness :
  exists r v,
    tool_analyze_alignment fresh_state (disk tied_titles)
    = (Ok r, fresh_state, disk tied_titles) /\
    subscript r "standard_left_position" = Ok (PInt v) /\
    first_most_frequent
      (map tp_left (get_title_placeholder_positions tied_titles)) v.
Proof.
  apply (proj2 standard_position_is_first_most_frequent
           fresh_state (disk tied_titles) tied_titles).
  - reflexivity.
  - discriminate.
Defined.

(* ===================================================================== *)
(** ** The agent loop *)
(* ===================================================================== *)

Section Frames.

Variable R : AgentState -> AgentState -> Prop.
Hypothesis R_refl : forall st, R st st.
Hypothesis R_trans : forall a b c, R a b -> R b c -> R a c.

Lemma frames_ret {A} (a : A) : frames R (ret a).
Proof. intros st w. apply R_refl. Qed.

Lemma frames_raise {A} (e : exn) : frames R (@raise A e).
Proof. intros st w. apply R_refl. Qed.

Lemma frames_lift {A} (o : outcome A) : frames R (lift o).
Proof. intros st w. apply R_refl. Qed.

Lemma frames_get_state : frames R get_state.
Proof. intros st w. apply R_refl. Qed.

Lemma frames_get_world : frames R get_world.
Proof. intros st w. apply R_refl. Qed.

Lemma frames_put_world w' : frames R (put_world w').
Proof. intros st w. apply R_refl. Qed.

Lemma frames_modify_state f : (forall st, R st (f st)) -> frames R (modify_state f).
Proof. intros H st w. apply H. Qed.

Lemma frames_bind {A B} (c : M A) (k : A -> M B) :
  frames R c -> (forall a, frames R (k a)) -> frames R (bind c k).
Proof.
  intros Hc Hk st w. unfold bind. specialize (Hc st w).
  destruct (c st w) as [[[a|e] st1] w1]; simpl in *; [|exact Hc].
  eapply R_trans; [exact Hc | apply Hk].
Qed.

End Frames.

Lemma same_iteration_refl st : same_iteration st st.
Proof. reflexivity. Qed.

Lemma same_iteration_trans a b c :
  same_iteration a b -> same_iteration b c -> same_iteration a c.
Proof. unfold same_iteration. congruence. Qed.

Lemma same_progress_refl st : same_progress st st.
Proof. now split. Qed.

Lemma same_progress_trans a b c :
  same_progress a b -> same_progress b c -> same_progress a c.
Proof. unfold same_progress. intros [] []. split; congruence. Qed.

Lemma same_progress_iteration {A} (c : M A) :
  frames same_progress c -> frames same_iteration c.
Proof. intros H st w. apply H. Qed.

Ltac frame_steps R_refl R_trans :=
  repeat first
    [ apply (frames_bind _ R_trans)
    | apply (frames_ret _ R_refl)
    | apply (frames_raise _ R_refl)
    | apply (frames_lift _ R_refl)
    | apply (frames_get_state _ R_refl)
    | apply (frames_get_world _ R_refl)
    | apply (frames_put_world _ R_refl)
    | apply frames_modify_state; intros; split; reflexivity
    | match goal with |- forall _, frames _ _ => intros ? end ].

Ltac keeps_progress := frame_steps same_progress_refl same_progress_trans.

Lemma extract_keeps_progress : frames same_progress tool_extract_slide_content.
Proof. unfold tool_extract_slide_content. keeps_progress. Qed.

Lemma alignment_keeps_progress : frames same_progress tool_analyze_alignment.
Proof.
  unfold tool_analyze_alignment. keeps_progress.
  destruct (get_title_placeholder_positions _); [keeps_progress|].
  destruct (most_common_left _); keeps_progress.
Qed.

Lemma add_correction_keeps_progress a b c d e g :
  frames same_progress (tool_add_correction a b c d e g).
Proof. unfold tool_add_correction. keeps_progress. Qed.

Lemma apply_keeps_progress : frames same_progress tool_apply_all_corrections.
Proof.
  unfold tool_apply_all_corrections. keeps_progress.
  destruct (pending_corrections _); keeps_progress.
Qed.

Lemma mark_complete_keeps_iteration : frames same_iteration tool_mark_complete.
Proof.
  unfold tool_mark_complete.
  apply (frames_bind _ same_iteration_trans).
  - apply frames_modify_state. reflexivity.
  - intros _. frame_steps same_iteration_refl same_iteration_trans.
Qed.

Lemma append_message_keeps_progress m : frames same_progress (append_message m).
Proof. unfold append_message. keeps_progress. Qed.

Section Loop.

Variable chat_completion : list Message -> outcome AssistantMessage.
Variable analysis_completion : pyval -> pyval -> outcome pyval.

Lemma analyze_text_keeps_progress a b :
  frames same_progress (tool_analyze_text_for_errors analysis_completion a b).
Proof. unfold tool_analyze_text_for_errors. keeps_progress. Qed.

(** The registry holds exactly the six tools. *)
Lemma registry_cases name :
  name = "extract_slide_content" \/ name = "analyze_text_for_errors" \/
  name = "analyze_alignment" \/ name = "add_correction" \/
  name = "apply_all_corrections" \/ name = "mark_complete" \/
  registry_get (TOOLS analysis_completion) name = None.
Proof.
  unfold TOOLS. cbn [registry_get].
  repeat match goal with
         | |- context [String.eqb ?k name] =>
             destruct (String.eqb_spec k name); [subst; tauto|]
         end.
  tauto.
Qed.

Lemma call_tool_not_found name args :
  registry_get (TOOLS analysis_completion) name = None ->
  call_tool analysis_completion name args
  = ret (PDict [("error", PStr ("Tool not found: " +:+ name))]).
Proof. intros H. unfold call_tool. now rewrite H. Qed.

(** No tool but [mark_complete] touches the completion flag, and none
    touches the iteration counter. *)
Lemma call_tool_keeps_progress name args :
  name <> "mark_complete" ->
  frames same_progress (call_tool analysis_completion name args).
Proof.
  intros N.
  destruct (registry_cases name) as [->|[->|[->|[->|[->|[->|H]]]]]].
  - apply extract_keeps_progress.
  - unfold call_tool. cbn. keeps_progress; try apply analyze_text_keeps_progress.
  - apply alignment_keeps_progress.
  - unfold call_tool. cbn. keeps_progress; try apply add_correction_keeps_progress.
  - apply apply_keeps_progress.
  - contradiction.
  - rewrite call_tool_not_found by exact H. keeps_progress.
Qed.

Lemma call_tool_keeps_iteration name args :
  frames same_iteration (call_tool analysis_completion name args).
Proof.
  destruct (String.eqb_spec name "mark_complete") as [->|N].
  - apply mark_complete_keeps_iteration.
  - apply same_progress_iteration. now apply call_tool_keeps_progress.
Qed.

Lemma execute_tool_call_keeps_progress tc :
  tc_name tc <> "mark_complete" ->
  frames same_progress (execute_tool_call analysis_completion tc).
Proof.
  intros N. unfold execute_tool_call. keeps_progress.
  now apply call_tool_keeps_progress.
Qed.

Lemma execute_tool_call_keeps_iteration tc :
  frames same_iteration (execute_tool_call analysis_completion tc).
Proof.
  unfold execute_tool_call.
  apply (frames_bind _ same_iteration_trans); [apply (frames_lift _ same_iteration_refl)|].
  intros args. apply (frames_bind _ same_iteration_trans).
  - apply call_tool_keeps_iteration.
  - intros r. apply same_progress_iteration, append_message_keeps_progress.
Qed.

Lemma execute_tool_calls_keeps_progress tcs :
  Forall (fun tc => tc_name tc <> "mark_complete") tcs ->
  frames same_progress (execute_tool_calls analysis_completion tcs).
Proof.
  induction 1 as [|tc tcs N _ IH]; cbn [execute_tool_calls].
  - apply (frames_ret _ same_progress_refl).
  - apply (frames_bind _ same_progress_trans).
    + now apply execute_tool_call_keeps_progress.
    + intros _. exact IH.
Qed.

Lemma execute_tool_calls_keeps_iteration tcs :
  frames same_iteration (execute_tool_calls analysis_completion tcs).
Proof.
  induction tcs as [|tc tcs IH]; cbn [execute_tool_calls].
  - apply (frames_ret _ same_iteration_refl).
  - apply (frames_bind _ same_iteration_trans).
    + apply execute_tool_call_keeps_iteration.
    + intros _. exact IH.
Qed.

(** The turn behind the increment of the counter. *)
Lemma agent_iteration_step st w :
  agent_iteration chat_completion analysis_completion st w
  = bind get_state (fun st0 =>
      bind (lift (chat_completion (messages st0))) (fun assistant_message =>
        bind (append_message (FromAssistant assistant_message)) (fun _ =>
          match tool_calls assistant_message with
          | Some (tc :: rest) =>
              execute_tool_calls analysis_completion (tc :: rest)
          | _ => ret tt
          end)))
      (set_iteration st (iteration st + 1)) w.
Proof. reflexivity. Qed.

Lemma after_increment_keeps_iteration :
  frames same_iteration
    (bind get_state (fun st0 =>
      bind (lift (chat_completion (messages st0))) (fun assistant_message =>
        bind (append_message (FromAssistant assistant_message)) (fun _ =>
          match tool_calls assistant_message with
          | Some (tc :: rest) =>
              execute_tool_calls analysis_completion (tc :: rest)
          | _ => ret tt
          end)))).
Proof.
  apply (frames_bind _ same_iteration_trans); [apply (frames_get_state _ same_iteration_refl)|].
  intros st0. apply (frames_bind _ same_iteration_trans); [apply (frames_lift _ same_iteration_refl)|].
  intros m. apply (frames_bind _ same_iteration_trans).
  - apply same_progress_iteration, append_message_keeps_progress.
  - intros _. destruct (tool_calls m) as [[|tc rest]|].
    + apply (frames_ret _ same_iteration_refl).
    + apply execute_tool_calls_keeps_iteration.
    + apply (frames_ret _ same_iteration_refl).
Qed.

Lemma after_increment_keeps_progress :
  never_requests chat_completion "mark_complete" ->
  frames same_progress
    (bind get_state (fun st0 =>
      bind (lift (chat_completion (messages st0))) (fun assistant_message =>
        bind (append_message (FromAssistant assistant_message)) (fun _ =>
          match tool_calls assistant_message with
          | Some (tc :: rest) =>
              execute_tool_calls analysis_completion (tc :: rest)
          | _ => ret tt
          end)))).
Proof.
  intros Never st w. unfold bind at 1. unfold get_state.
  unfold bind at 1. unfold lift.
  destruct (chat_completion (messages st)) as [m|e] eqn:C; [|apply same_progress_refl].
  revert st w C.
  enough (F : forall st0, chat_completion (messages st0) = Ok m ->
              frames same_progress
                (bind (append_message (FromAssistant m)) (fun _ =>
                   match tool_calls m with
                   | Some (tc :: rest) =>
                       execute_tool_calls analysis_completion (tc :: rest)
                   | _ => ret tt
                   end))).
  { intros st w C. exact (F st C st w). }
  intros st0 C. apply (frames_bind _ same_progress_trans).
  - apply append_message_keeps_progress.
  - intros _. destruct (tool_calls m) as [[|tc rest]|] eqn:T.
    + apply (frames_ret _ same_progress_refl).
    + apply execute_tool_calls_keeps_progress. exact (Never _ _ _ C T).
    + apply (frames_ret _ same_progress_refl).
Qed.

(** Every turn of the loop counts once, whether it returns or raises. *)
Lemma agent_iteration_counts st w :
  iteration (agent_iteration chat_completion analysis_completion st w).1.2
  = iteration st + 1.
Proof.
  rewrite agent_iteration_step.
  exact (after_increment_keeps_iteration (set_iteration st (iteration st + 1)) w).
Qed.

Lemma agent_iteration_not_complete st w :
  never_requests chat_completion "mark_complete" ->
  is_complete (agent_iteration chat_completion analysis_completion st w).1.2
  = is_complete st.
Proof.
  intros Never. rewrite agent_iteration_step.
  exact (proj2 (after_increment_keeps_progress Never
                  (set_iteration st (iteration st + 1)) w)).
Qed.

End Loop.

Section Run.

Variable chat_completion : list Message -> outcome AssistantMessage.
Variable analysis_completion : pyval -> pyval -> outcome pyval.

Lemma agent_loop_unfold fuel st w :
  agent_loop chat_completion analysis_completion fuel st w =
  if negb (is_complete st) && (iteration st <? MAX_ITERATIONS) then
    match fuel with
    | O => None
    | S fuel' =>
        match agent_iteration chat_completion analysis_completion st w with
        | (Ok _, st', w') =>
            if is_complete st' then Some (Ok tt, st', w')
            else agent_loop chat_completion analysis_completion fuel' st' w'
        | (Raise e, st', w') => Some (Raise e, st', w')
        end
    end
  else Some (Ok tt, st, w).
Proof. destruct fuel; reflexivity. Qed.

(** The loop ends within the fuel that [run_agent] gives it. *)
Lemma agent_loop_fuel fuel : forall st w,
  (Z.to_nat (MAX_ITERATIONS - iteration st) <= fuel)%nat ->
  agent_loop chat_completion analysis_completion fuel st w <> None.
Proof.
  induction fuel as [|fuel IH]; intros st w F; rewrite agent_loop_unfold.
  - destruct (negb (is_complete st)); simpl; [|discriminate].
    destruct (Z.ltb_spec (iteration st) MAX_ITERATIONS); [lia | discriminate].
  - destruct (negb (is_complete st)); simpl; [|discriminate].
    destruct (Z.ltb_spec (iteration st) MAX_ITERATIONS); [|discriminate].
    pose proof (agent_iteration_counts chat_completion analysis_completion st w) as C.
    destruct (agent_iteration _ _ st w) as [[[u|e] st1] w1]; [|discriminate].
    simpl in C. destruct (is_complete st1); [discriminate|].
    apply IH. lia.
Qed.

Lemma run_agent_total presentation_path output_path w :
  run_agent chat_completion analysis_completion presentation_path output_path w
  <> None.
Proof.
  unfold run_agent.
  pose proof (agent_loop_fuel (Z.to_nat MAX_ITERATIONS)
                (initial_state presentation_path output_path) w) as F.
  destruct (agent_loop _ _ _ _ w) as [[[[u|e] st] w1]|]; try discriminate.
  exfalso. apply F; [|reflexivity]. simpl. lia.
Qed.

Lemma agent_loop_budget :
  never_requests chat_completion "mark_complete" ->
  forall fuel st w,
  is_complete st = false -> iteration st <= MAX_ITERATIONS ->
  (Z.to_nat (MAX_ITERATIONS - iteration st) <= fuel)%nat ->
  (forall e st' w',
     agent_loop chat_completion analysis_completion fuel st w
     <> Some (Raise e, st', w')) ->
  exists st' w',
    agent_loop chat_completion analysis_completion fuel st w
    = Some (Ok tt, st', w') /\
    iteration st' = MAX_ITERATIONS /\ is_complete st' = false.
Proof.
  intros Never.
  induction fuel as [|fuel IH]; intros st w D B F NR;
    rewrite agent_loop_unfold in *; rewrite D in *; simpl in *.
  - destruct (Z.ltb_spec (iteration st) MAX_ITERATIONS); [lia|].
    exists st, w. split; [reflexivity|]. split; [lia | exact D].
  - destruct (Z.ltb_spec (iteration st) MAX_ITERATIONS) as [L|L].
    + pose proof (agent_iteration_counts chat_completion analysis_completion st w) as C.
      pose proof (agent_iteration_not_complete chat_completion analysis_completion
                    st w Never) as K.
      destruct (agent_iteration _ _ st w) as [[[u|e] st1] w1]; simpl in C, K.
      * rewrite K, D in *. apply IH; [congruence | lia | lia | exact NR].
      * exfalso. now apply (NR e st1 w1).
    + exists st, w. split; [reflexivity|]. split; [lia | exact D].
Qed.

End Run.

(** The model asks for [add_correction] without arguments at the first
    turn: [mark_complete] is never called, and the run raises. *)
Lemma a_raising_tool_call_ends_the_run :
  ~ (forall chat analysis presentation_path output_path w,
       never_requests chat "mark_complete" ->
       exists r st w',
         run_agent chat analysis presentation_path output_path w
         = Some (Ok r, st, w') /\
         iteration st = 20 /\ is_complete st = false).
Proof.
  intros H.
  destruct (H careless_model silent_analysis "deck.pptx" "out.pptx" (disk two_bodies))
    as (r & st & w' & E & _).
  - intros msgs m calls C T. injection C as <-. injection T as <-.
    constructor; [discriminate | constructor].
  - vm_compute in E. discriminate.
Qed.

Example careless_model_run :
  exists st,
    run_agent careless_model silent_analysis "deck.pptx" "out.pptx" (disk two_bodies)
    = Some (Raise (KeyError "slide_number"), st, disk two_bodies) /\
    iteration st = 1 /\ is_complete st = false.
Proof. eexists. split; [vm_compute; reflexivity|]. split; reflexivity. Qed.

(** C1, amended.  When the model never asks for [mark_complete] and no
    model call or tool raises, the loop runs until the counter reaches
    [MAX_ITERATIONS] = 20 and [run_agent] returns its summary: 20
    iterations, [is_complete] false. *)
Theorem budget_ends_a_run_that_never_completes
    (chat : list Message -> outcome AssistantMessage)
    (analysis : pyval -> pyval -> outcome pyval)
    (presentation_path output_path : string) (w : World) :
  never_requests chat "mark_complete" ->
  (forall e st w',
     run_agent chat analysis presentation_path output_path w
     <> Some (Raise e, st, w')) ->
  exists st w',
    run_agent chat analysis presentation_path output_path w
    = Some (Ok (summary st), st, w') /\
    iteration st = 20 /\ is_complete st = false /\
    subscript (summary st) "iterations" = Ok (PInt 20).
Proof.
  intros Never NR. unfold run_agent in *.
  destruct (agent_loop_budget chat analysis Never (Z.to_nat MAX_ITERATIONS)
              (initial_state presentation_path output_path) w)
    as (st & w' & E & I & D).
  - reflexivity.
  - simpl. unfold MAX_ITERATIONS. lia.
  - simpl. lia.
  - intros e st' w' E. apply (NR e st' w'). now rewrite E.
  - rewrite E. exists st, w'. split; [reflexivity|]. split; [exact I|].
    split; [exact D|]. simpl. now rewrite I.
Qed.

Lemma budget_ends_a_run_that_never_completes_witness :
  exists st w',
    run_agent talkative_model silent_analysis "deck.pptx" "out.pptx" (disk two_bodies)
    = Some (Ok (summary st), st, w') /\
    iteration st = 20 /\ is_complete st = false /\
    subscript (summary st) "iterations" = Ok (PInt 20).
Proof.
  apply budget_ends_a_run_that_never_completes.
  - intros msgs m calls C T. injection C as <-. discriminate.
  - intros e st w'. vm_compute. discriminate.
Defined.

(* ===================================================================== *)
(** ** Dispatch of tool calls *)
(* ===================================================================== *)

Section Dispatch.

Variable chat_completion : list Message -> outcome AssistantMessage.
Variable analysis_completion : pyval -> pyval -> outcome pyval.

Lemma load_arguments_ok a :
  a <> Malformed -> exists v, load_arguments a = Ok v.
Proof. destruct a; [eauto | contradiction | eauto]. Qed.

Lemma execute_unknown_tool tc st w :
  registry_get (TOOLS analysis_completion) (tc_name tc) = None ->
  tc_arguments tc <> Malformed ->
  execute_tool_call analysis_completion tc st w
  = (Ok tt, set_messages st (messages st ++ [tool_not_found tc]), w).
Proof.
  intros H A. destruct (load_arguments_ok _ A) as [v L].
  unfold execute_tool_call, bind, lift. rewrite L.
  now rewrite call_tool_not_found by exact H.
Qed.

Lemma execute_unknown_tools calls : forall st w,
  Forall (fun tc => registry_get (TOOLS analysis_completion) (tc_name tc) = None /\
                    tc_arguments tc <> Malformed) calls ->
  execute_tool_calls analysis_completion calls st w
  = (Ok tt, set_messages st (messages st ++ map tool_not_found calls), w).
Proof.
  induction calls as [|tc calls IH]; intros st w F.
  - simpl. unfold ret. rewrite app_nil_r. now destruct st.
  - apply Forall_cons in F as [[H A] F].
    cbn [execute_tool_calls]. unfold bind.
    rewrite execute_unknown_tool by assumption.
    rewrite IH by exact F. simpl. now rewrite <- app_assoc.
Qed.

End Dispatch.

(** A call of an unregistered tool whose argument string is broken
    raises: no error result reaches the transcript. *)
Lemma unknown_tool_with_broken_arguments_raises :
  ~ (forall analysis tc st w,
       registry_get (TOOLS analysis) (tc_name tc) = None ->
       exists result,
         execute_tool_call analysis tc st w
         = (Ok tt,
            set_messages st (messages st ++ [ToolMessage (tc_id tc) result]), w)).
Proof.
  intros H.
  destruct (H silent_analysis
              {| tc_id := "call_1"; tc_name := "delete_slide";
                 tc_arguments := Malformed |}
              fresh_state (disk two_bodies) eq_refl) as [result E].
  vm_compute in E. discriminate.
Qed.

Example garbled_model_run :
  exists st,
    run_agent garbled_model silent_analysis "deck.pptx" "out.pptx" (disk two_bodies)
    = Some (Raise JSONDecodeError, st, disk two_bodies) /\
    iteration st = 1 /\
    messages st = messages fresh_state
                  ++ [FromAssistant (one_call "call_1" "delete_slide" Malformed)].
Proof. eexists. split; [vm_compute; reflexivity|]. split; reflexivity. Qed.

(** C10, amended.  A call of a tool that is not in the registry, with an
    argument string that is empty or valid JSON, raises nothing: its error
    result is appended to the transcript under the identifier of the call,
    and nothing else in the state changes.  A turn of the model that holds
    only such calls returns with the counter advanced by one and the
    completion flag as it was, so the loop goes on. *)
Theorem unknown_tool_is_reported_in_the_transcript
    (chat : list Message -> outcome AssistantMessage)
    (analysis : pyval -> pyval -> outcome pyval) :
  (forall tc st w,
     registry_get (TOOLS analysis) (tc_name tc) = None ->
     tc_arguments tc <> Malformed ->
     execute_tool_call analysis tc st w
     = (Ok tt, set_messages st (messages st ++ [tool_not_found tc]), w)) /\
  (forall st w m calls,
     chat (messages st) = Ok m -> tool_calls m = Some calls ->
     Forall (fun tc => registry_get (TOOLS analysis) (tc_name tc) = None /\
                       tc_arguments tc <> Malformed) calls ->
     exists st',
       agent_iteration chat analysis st w = (Ok tt, st', w) /\
       messages st' = messages st ++ FromAssistant m :: map tool_not_found calls /\
       iteration st' = iteration st + 1 /\
       is_complete st' = is_complete st).
Proof.
  split; [apply execute_unknown_tool|].
  intros st w m calls C T F.
  rewrite agent_iteration_step.
  unfold bind, get_state, lift, append_message, modify_state.
  change (messages (set_iteration st (iteration st + 1))) with (messages st).
  rewrite C, T.
  destruct calls as [|tc rest].
  - eexists. split; [reflexivity|]. simpl. auto.
  - rewrite execute_unknown_tools by exact F.
    eexists. split; [reflexivity|]. simpl. rewrite <- app_assoc. auto.
Qed.

Lemma unknown_tool_is_reported_in_the_transcript_witness :
  execute_tool_call silent_analysis
    {| tc_id := "call_1"; tc_name := "delete_slide"; tc_arguments := NoArguments |}
    fresh_state (disk two_bodies)
  = (Ok tt,
     set_messages fresh_state
       (messages fresh_state
        ++ [ToolMessage "call_1"
              (PDict [("error", PStr "Tool not found: delete_slide")])]),
     disk two_bodies).
Proof.
  apply (proj1 (unknown_tool_is_reported_in_the_transcript
                  confused_model silent_analysis)).
  - reflexivity.
  - discriminate.
Defined.

Example confused_model_run :
  match run_agent confused_model silent_analysis "deck.pptx" "out.pptx"
                  (disk two_bodies) with
  | Some (Ok r, st, w') =>
      subscript r "iterations" = Ok (PInt 20) /\
      iteration st = 20 /\ length (messages st) = 42%nat /\
      w' = disk two_bodies
  | _ => False
  end.
Proof. vm_compute. repeat split; reflexivity. Qed.

(** A call of [add_correction] without its required fields raises a
    [KeyError]: the arguments are not validated, and no tool-error result
    reaches the transcript. *)
Lemma missing_field_raises :
  ~ (forall analysis tc entry args st w,
       registry_get (TOOLS analysis) (tc_name tc) = Some entry ->
       load_arguments (tc_arguments tc) = Ok args ->
       validates entry args = false ->
       exists error,
         execute_tool_call analysis tc st w
         = (Ok tt,
            set_messages st
              (messages st ++ [ToolMessage (tc_id tc) (PDict [("error", error)])]),
            w)).
Proof.
  intros H.
  destruct (H silent_analysis
              {| tc_id := "call_1"; tc_name := "add_correction";
                 tc_arguments := Json (PDict []) |}
              _ _ fresh_state (disk two_bodies) eq_refl eq_refl eq_refl)
    as [error E].
  vm_compute in E. discriminate.
Qed.

(** Arguments of the wrong type pass: the handler stores them, and the
    next [apply_all_corrections] raises a [TypeError]. *)
Example ill_typed_arguments_are_stored :
  validates {| tool_function := Function6 tool_add_correction;
               description := "Add a correction to the pending list";
               properties := [("slide_number", TInteger)];
               required := ["slide_number"] |} ill_typed_arguments = false /\
  pending_corrections
    (execute_tool_call silent_analysis
       {| tc_id := "call_1"; tc_name := "add_correction";
          tc_arguments := Json ill_typed_arguments |}
       fresh_state (disk two_bodies)).1.2 = [ill_typed_correction] /\
  (tool_apply_all_corrections (with_pending [ill_typed_correction])
     (disk two_bodies)).1.1 = Raise TypeError.
Proof. vm_compute. repeat split; reflexivity. Qed.

(** C5, amended.  The loop does not validate the arguments of a registered
    tool against its schema.  It decodes the argument string, and an
    undecodable string raises.  For a tool that declares no required field
    the decoded value is ignored.  Otherwise the value must be an object
    that holds every required field: a missing field raises a [KeyError]
    and any other value a [TypeError], both out of the loop and without an
    entry in the transcript.  When the fields are there, the handler gets
    their values whatever their types, and its result is appended to the
    transcript. *)
Theorem arguments_are_read_without_validation
    (analysis : pyval -> pyval -> outcome pyval) (tc : ToolCall)
    (entry : ToolEntry) (st : AgentState) (w : World) :
  registry_get (TOOLS analysis) (tc_name tc) = Some entry ->
  execute_tool_call analysis tc st w =
  match load_arguments (tc_arguments tc) with
  | Raise e => (Raise e, st, w)
  | Ok args =>
      match required entry, args with
      | [], _ =>
          bind (apply_handler (tool_function entry) [])
               (fun result => append_message (ToolMessage (tc_id tc) result)) st w
      | _ :: _, PDict d =>
          match first_missing (required entry) d with
          | Some k => (Raise (KeyError k), st, w)
          | None =>
              bind (apply_handler (tool_function entry)
                      (required_values (required entry) d))
                   (fun result => append_message (ToolMessage (tc_id tc) result))
                   st w
          end
      | _ :: _, _ => (Raise TypeError, st, w)
      end
  end.
Proof.
  intros H. unfold execute_tool_call. unfold bind at 1. unfold lift at 1.
  destruct (load_arguments (tc_arguments tc)) as [args|e]; [|reflexivity].
  destruct (registry_cases analysis (tc_name tc))
    as [N|[N|[N|[N|[N|[N|N]]]]]]; rewrite N in *; try discriminate;
    injection H as <-; try reflexivity.
  - destruct args as [| | | | |d]; try reflexivity.
    unfold first_missing, required_values, present, call_tool, subscript.
    cbn -[tool_analyze_text_for_errors append_message dict_get].
    unfold bind, lift.
    destruct (dict_get d "slide_number"); [|reflexivity].
    destruct (dict_get d "text"); reflexivity.
  - destruct args as [| | | | |d]; try reflexivity.
    unfold first_missing, required_values, present, call_tool, subscript.
    cbn -[tool_add_correction append_message dict_get].
    unfold bind, lift.
    destruct (dict_get d "slide_number"); [|reflexivity].
    destruct (dict_get d "shape_name"); [|reflexivity].
    destruct (dict_get d "original_text"); [|reflexivity].
    destruct (dict_get d "corrected_text"); [|reflexivity].
    destruct (dict_get d "correction_type"); [|reflexivity].
    destruct (dict_get d "reasoning"); reflexivity.
Qed.

Lemma arguments_are_read_without_validation_witness :
  execute_tool_call silent_analysis
    {| tc_id := "call_1"; tc_name := "add_correction";
       tc_arguments := Json (PDict [("slide_number", PInt 1)]) |}
    fresh_state (disk two_bodies)
  = (Raise (KeyError "shape_name"), fresh_state, disk two_bodies).
Proof.
  exact (arguments_are_read_without_validation silent_analysis
           {| tc_id := "call_1"; tc_name := "add_correction";
              tc_arguments := Json (PDict [("slide_number", PInt 1)]) |}
           _ fresh_state (disk two_bodies) eq_refl).
Defined.

(* ===================================================================== *)
(** ** What every tool, every turn and every run keeps *)
(* ===================================================================== *)

Lemma later_refl a : later a a.
Proof. split; auto; reflexivity. Qed.

Lemma later_trans a b c : later a b -> later b c -> later a c.
Proof.
  intros [P1 O1 M1 A1 Q1 I1 C1 R1 F1] [P2 O2 M2 A2 Q2 I2 C2 R2 F2]. split.
  - congruence.
  - congruence.
  - etrans; eassumption.
  - etrans; eassumption.
  - etrans; eassumption.
  - lia.
  - auto.
  - congruence.
  - intros path N. rewrite F2 by congruence. now apply F1.
Qed.

Lemma keeps_ret {A} (a : A) : keeps (ret a).
Proof. intros st w. apply later_refl. Qed.

Lemma keeps_raise {A} (e : exn) : keeps (@raise A e).
Proof. intros st w. apply later_refl. Qed.

Lemma keeps_lift {A} (o : outcome A) : keeps (lift o).
Proof. intros st w. apply later_refl. Qed.

Lemma keeps_get_state : keeps get_state.
Proof. intros st w. apply later_refl. Qed.

Lemma keeps_get_world : keeps get_world.
Proof. intros st w. apply later_refl. Qed.

Lemma keeps_bind {A B} (c : M A) (k : A -> M B) :
  keeps c -> (forall a, keeps (k a)) -> keeps (bind c k).
Proof.
  intros Hc Hk st w. unfold bind. specialize (Hc st w).
  destruct (c st w) as [[[a|e] st1] w1]; simpl in *; [|exact Hc].
  eapply later_trans; [exact Hc | apply Hk].
Qed.

Lemma keeps_append_message m : keeps (append_message m).
Proof.
  intros st w. split; simpl; auto; try reflexivity.
  now apply prefix_app_r.
Qed.

Lemma extract_keeps : keeps tool_extract_slide_content.
Proof.
  unfold tool_extract_slide_content.
  apply keeps_bind; [apply keeps_get_state|]. intros st0.
  apply keeps_bind; [apply keeps_get_world|]. intros w0.
  apply keeps_bind; [apply keeps_lift|]. intros prs.
  apply keeps_bind; [|intros _; apply keeps_ret].
  intros st w. split; simpl; auto; reflexivity.
Qed.

Lemma alignment_keeps : keeps tool_analyze_alignment.
Proof.
  unfold tool_analyze_alignment.
  apply keeps_bind; [apply keeps_get_state|]. intros st0.
  apply keeps_bind; [apply keeps_get_world|]. intros w0.
  apply keeps_bind; [apply keeps_lift|]. intros prs.
  destruct (get_title_placeholder_positions prs); [apply keeps_ret|].
  destruct (most_common_left _); [apply keeps_ret | apply keeps_raise].
Qed.

Lemma add_correction_keeps a b c d e g : keeps (tool_add_correction a b c d e g).
Proof.
  unfold tool_add_correction.
  apply keeps_bind; [|intros _; apply keeps_ret].
  intros st w. split; simpl; auto; try reflexivity.
  rewrite app_assoc. now apply prefix_app_r.
Qed.

Lemma mark_complete_keeps : keeps tool_mark_complete.
Proof.
  unfold tool_mark_complete.
  apply keeps_bind.
  - intros st w. split; simpl; auto; reflexivity.
  - intros _. apply keeps_bind; [apply keeps_get_state|]. intros st0. apply keeps_ret.
Qed.

Lemma apply_keeps : keeps tool_apply_all_corrections.
Proof.
  intros st w.
  destruct (pending_corrections st) as [|c rest] eqn:P.
  - rewrite tool_apply_empty by exact P. apply later_refl.
  - rewrite tool_apply_nonempty by (rewrite P; discriminate).
    destruct (open_presentation w (presentation_path st)); [|apply later_refl].
    destruct (apply_corrections _ _ []) as [done|]; [|apply later_refl].
    unfold save_presentation.
    destruct (decide (output_path st ∈ read_only w)); [apply later_refl|].
    split; simpl; auto; try reflexivity.
    + now apply prefix_app_r.
    + now rewrite app_nil_r.
    + intros path N. now rewrite lookup_insert_ne.
Qed.

Section KeptByTheLoop.

Variable chat_completion : list Message -> outcome AssistantMessage.
Variable analysis_completion : pyval -> pyval -> outcome pyval.

Lemma call_tool_keeps name args :
  keeps (call_tool analysis_completion name args).
Proof.
  destruct (registry_cases analysis_completion name)
    as [->|[->|[->|[->|[->|[->|H]]]]]].
  - apply extract_keeps.
  - unfold call_tool. cbn.
    apply keeps_bind; [apply keeps_lift|]. intros a.
    apply keeps_bind; [apply keeps_lift|]. intros b. apply keeps_lift.
  - apply alignment_keeps.
  - unfold call_tool. cbn.
    repeat (apply keeps_bind; [apply keeps_lift|]; intros ?).
    apply add_correction_keeps.
  - apply apply_keeps.
  - apply mark_complete_keeps.
  - rewrite call_tool_not_found by exact H. apply keeps_ret.
Qed.

Lemma execute_tool_call_keeps tc :
  keeps (execute_tool_call analysis_completion tc).
Proof.
  unfold execute_tool_call.
  apply keeps_bind; [apply keeps_lift|]. intros args.
  apply keeps_bind; [apply call_tool_keeps|]. intros r.
  apply keeps_append_message.
Qed.

Lemma execute_tool_calls_keeps tcs :
  keeps (execute_tool_calls analysis_completion tcs).
Proof.
  induction tcs as [|tc tcs IH]; cbn [execute_tool_calls].
  - apply keeps_ret.
  - apply keeps_bind; [apply execute_tool_call_keeps | intros _; exact IH].
Qed.

Lemma agent_iteration_keeps :
  keeps (agent_iteration chat_completion analysis_completion).
Proof.
  unfold agent_iteration.
  apply keeps_bind.
  { intros st w. split; simpl; auto; try reflexivity. lia. }
  intros _. apply keeps_bind; [apply keeps_get_state|]. intros st0.
  apply keeps_bind; [apply keeps_lift|]. intros m.
  apply keeps_bind; [apply keeps_append_message|]. intros _.
  destruct (tool_calls m) as [[|tc rest]|]; try apply keeps_ret.
  apply execute_tool_calls_keeps.
Qed.

Lemma agent_loop_keeps fuel : forall st w o st' w',
  agent_loop chat_completion analysis_completion fuel st w = Some (o, st', w') ->
  later (st, w) (st', w').
Proof.
  induction fuel as [|fuel IH]; intros st w o st' w' H;
    rewrite agent_loop_unfold in H.
  - destruct (negb (is_complete st) && (iteration st <? MAX_ITERATIONS));
      [discriminate|]. injection H as <- <- <-. apply later_refl.
  - destruct (negb (is_complete st) && (iteration st <? MAX_ITERATIONS)).
    + pose proof (agent_iteration_keeps st w) as K.
      destruct (agent_iteration _ _ st w) as [[[u|e] st1] w1]; simpl in K.
      * destruct (is_complete st1).
        { injection H as <- <- <-. exact K. }
        eapply later_trans; [exact K | eapply IH, H].
      * injection H as <- <- <-. exact K.
    + injection H as <- <- <-. apply later_refl.
Qed.

Lemma run_agent_keeps presentation_path output_path w o st' w' :
  run_agent chat_completion analysis_completion presentation_path output_path w
  = Some (o, st', w') ->
  later (initial_state presentation_path output_path, w) (st', w').
Proof.
  unfold run_agent. intros H.
  destruct (agent_loop _ _ _ _ w) as [[[[u|e] st1] w1]|] eqn:E; [| |discriminate];
    injection H as _ <- <-; eapply agent_loop_keeps, E.
Qed.

End KeptByTheLoop.

(* ===================================================================== *)
(** ** Properties of whole runs *)
(* ===================================================================== *)

(** X1.  Whatever the model answers and whether the run returns or raises,
    [run_agent] changes no file but the one at [output_path] and makes no
    path read-only or writable; when the two paths differ, the input
    presentation is as it was.  The state keeps the two paths it was given. *)
Theorem run_writes_only_the_output_file
    (chat : list Message -> outcome AssistantMessage)
    (analysis : pyval -> pyval -> outcome pyval)
    (input output : string) (w : World) :
  match run_agent chat analysis input output w with
  | Some (_, st', w') =>
      read_only w' = read_only w /\
      (forall path, path <> output -> files w' !! path = files w !! path) /\
      (input <> output -> files w' !! input = files w !! input) /\
      presentation_path st' = input /\ output_path st' = output
  | None => False
  end.
Proof.
  pose proof (run_agent_total chat analysis input output w) as T.
  destruct (run_agent _ _ _ _ w) as [[[o st'] w']|] eqn:E; [|congruence].
  apply run_agent_keeps in E as [P O _ _ _ _ _ R F]. simpl in *.
  repeat split; auto.
Qed.

(** X2.  The transcript is only appended to: the loop, started in any
    state, ends with a transcript that begins with the one it started
    from, and the transcript of a run begins with the system prompt and the
    user's request. *)
Theorem transcript_only_grows
    (chat : list Message -> outcome AssistantMessage)
    (analysis : pyval -> pyval -> outcome pyval) :
  (forall fuel st w o st' w',
     agent_loop chat analysis fuel st w = Some (o, st', w') ->
     messages st `prefix_of` messages st') /\
  (forall input output w o st' w',
     run_agent chat analysis input output w = Some (o, st', w') ->
     messages (initial_state input output) `prefix_of` messages st').
Proof.
  split.
  - intros fuel st w o st' w' H. now apply agent_loop_keeps in H as [].
  - intros input output w o st' w' H. now apply run_agent_keeps in H as [].
Qed.

Lemma transcript_only_grows_witness :
  messages (initial_state "deck.pptx" "out.pptx")
  `prefix_of`
  messages (set_messages (set_iteration fresh_state 1)
              (messages fresh_state
               ++ [FromAssistant (one_call "call_1" "add_correction" (Json (PDict [])))])).
Proof.
  eapply (proj2 (transcript_only_grows careless_model silent_analysis)
            "deck.pptx" "out.pptx" (disk two_bodies)
            (Raise (KeyError "slide_number")) _ (disk two_bodies)).
  vm_compute. reflexivity.
Defined.

(** X3.  No correction is lost, repeated or reordered by a turn of the
    loop: the applied corrections followed by the pending ones form a
    sequence that only grows at its end, and so does the list of applied
    corrections, whether the turn returns or raises. *)
Theorem corrections_are_kept_in_order
    (chat : list Message -> outcome AssistantMessage)
    (analysis : pyval -> pyval -> outcome pyval)
    (st : AgentState) (w : World) :
  let st' := (agent_iteration chat analysis st w).1.2 in
  (applied_corrections st ++ pending_corrections st)
    `prefix_of` (applied_corrections st' ++ pending_corrections st') /\
  applied_corrections st `prefix_of` applied_corrections st'.
Proof.
  destruct (agent_iteration_keeps chat analysis st w) as [_ _ _ A Q _ _ _ _].
  split; assumption.
Qed.

Lemma agent_loop_bound
    (chat : list Message -> outcome AssistantMessage)
    (analysis : pyval -> pyval -> outcome pyval) fuel :
  forall st w o st' w',
    agent_loop chat analysis fuel st w = Some (o, st', w') ->
    iteration st <= MAX_ITERATIONS ->
    iteration st' <= MAX_ITERATIONS /\
    (o = Ok tt -> is_complete st' = true \/ MAX_ITERATIONS <= iteration st').
Proof.
  induction fuel as [|fuel IH]; intros st w o st' w' H B;
    rewrite agent_loop_unfold in H.
  - destruct (is_complete st) eqn:D; simpl in H.
    + injection H as <- <- <-. auto.
    + destruct (Z.ltb_spec (iteration st) MAX_ITERATIONS); [discriminate|].
      injection H as <- <- <-. split; [lia|]. intros _. right. lia.
  - destruct (is_complete st) eqn:D; simpl in H.
    + injection H as <- <- <-. auto.
    + destruct (Z.ltb_spec (iteration st) MAX_ITERATIONS) as [L|L].
      * pose proof (agent_iteration_counts chat analysis st w) as C.
        destruct (agent_iteration _ _ st w) as [[[u|e] st1] w1]; simpl in C.
        { destruct (is_complete st1) eqn:D1.
          - injection H as <- <- <-. split; [lia | auto].
          - apply IH in H; [exact H | lia]. }
        injection H as <- <- <-. split; [lia | discriminate].
      * injection H as <- <- <-. split; [lia|]. intros _. right. lia.
Qed.

Lemma agent_loop_advances
    (chat : list Message -> outcome AssistantMessage)
    (analysis : pyval -> pyval -> outcome pyval) fuel st w o st' w' :
  agent_loop chat analysis (S fuel) st w = Some (o, st', w') ->
  is_complete st = false -> iteration st < MAX_ITERATIONS ->
  iteration st + 1 <= iteration st'.
Proof.
  intros H D L. rewrite agent_loop_unfold in H. rewrite D in H.
  cbn [negb andb] in H.
  destruct (Z.ltb_spec (iteration st) MAX_ITERATIONS); [|lia].
  pose proof (agent_iteration_counts chat analysis st w) as K.
  destruct (agent_iteration _ _ st w) as [[[u|e] st1] w1]; cbn [fst snd] in K.
  - destruct (is_complete st1).
    + injection H as _ <- _. lia.
    + apply agent_loop_keeps in H as [_ _ _ _ _ I _ _ _]. cbn [fst snd] in I. lia.
  - injection H as _ <- _. lia.
Qed.

(** X4.  The budget is a hard bound: in every outcome of [run_agent] the
    counter stands between 1 and 20, whatever the model and the tools do.
    When the run returns its summary, the model has asked for completion or
    the counter stands at 20. *)
Theorem run_stays_within_budget
    (chat : list Message -> outcome AssistantMessage)
    (analysis : pyval -> pyval -> outcome pyval)
    (input output : string) (w : World) :
  match run_agent chat analysis input output w with
  | Some (o, st', _) =>
      1 <= iteration st' <= 20 /\
      (forall r, o = Ok r -> is_complete st' = true \/ iteration st' = 20)
  | None => False
  end.
Proof.
  pose proof (run_agent_total chat analysis input output w) as T.
  unfold run_agent in *.
  destruct (agent_loop _ _ _ (initial_state input output) w)
    as [[[o st'] w']|] eqn:E; [|congruence].
  pose proof E as E0.
  apply agent_loop_bound in E as [B C]; [|simpl; unfold MAX_ITERATIONS; lia].
  change (Z.to_nat MAX_ITERATIONS) with (S 19) in E0.
  apply agent_loop_advances in E0; [|reflexivity|reflexivity].
  change (iteration (initial_state input output)) with 0 in E0.
  unfold MAX_ITERATIONS in *.
  destruct o as [[]|e]; (split; [lia|]); intros r Hr; [|discriminate].
  destruct (C eq_refl); [auto | right; lia].
Qed.

Section Completion.

Variable chat_completion : list Message -> outcome AssistantMessage.
Variable analysis_completion : pyval -> pyval -> outcome pyval.

Lemma asked_for_later name (msgs msgs' : list Message) :
  msgs `prefix_of` msgs' -> asked_for name msgs -> asked_for name msgs'.
Proof.
  intros [tail ->] (m & calls & tc & I & T & C & N).
  exists m, calls, tc. split; [|auto]. apply elem_of_app. now left.
Qed.

Lemma execute_tool_calls_completion tcs : forall st w,
  is_complete (execute_tool_calls analysis_completion tcs st w).1.2 = true ->
  is_complete st = true \/
  Exists (fun tc => tc_name tc = "mark_complete") tcs.
Proof.
  induction tcs as [|tc tcs IH]; intros st w H; cbn [execute_tool_calls] in H.
  - left. exact H.
  - unfold bind in H.
    destruct (String.eqb_spec (tc_name tc) "mark_complete") as [E|N].
    { right. now left. }
    pose proof (execute_tool_call_keeps_progress analysis_completion tc N st w)
      as [_ K].
    destruct (execute_tool_call analysis_completion tc st w)
      as [[[u|e] st1] w1]; cbn [fst snd] in *.
    + destruct (IH st1 w1 H) as [D|X]; [left; congruence | right; now right].
    + left. congruence.
Qed.

Lemma agent_iteration_completion st w :
  is_complete (agent_iteration chat_completion analysis_completion st w).1.2 = true ->
  is_complete st = true \/
  asked_for "mark_complete"
    (messages (agent_iteration chat_completion analysis_completion st w).1.2).
Proof.
  rewrite agent_iteration_step.
  unfold bind, get_state, lift, append_message, modify_state.
  change (messages (set_iteration st (iteration st + 1))) with (messages st).
  destruct (chat_completion (messages st)) as [m|e]; [|now left].
  destruct (tool_calls m) as [[|tc rest]|] eqn:T; try (now left).
  intros H.
  match type of H with
  | is_complete (execute_tool_calls _ _ ?s ?x).1.2 = true =>
      destruct (execute_tool_calls_completion _ s x H) as [D|X];
      [now left|];
      pose proof (execute_tool_calls_keeps analysis_completion (tc :: rest) s x)
        as [_ _ P _ _ _ _ _ _]
  end.
  right. cbn [fst snd messages set_messages] in P.
  apply Exists_exists in X as (tc0 & I & N).
  eapply asked_for_later; [exact P|].
  exists m, (tc :: rest), tc0. split; [|split; [exact T|split; [|exact N]]].
  - apply elem_of_app. right. left.
  - exact I.
Qed.

Lemma agent_loop_completion fuel : forall st w o st' w',
  agent_loop chat_completion analysis_completion fuel st w = Some (o, st', w') ->
  (is_complete st = true -> asked_for "mark_complete" (messages st)) ->
  is_complete st' = true -> asked_for "mark_complete" (messages st').
Proof.
  induction fuel as [|fuel IH]; intros st w o st' w' H Inv;
    rewrite agent_loop_unfold in H.
  - destruct (negb (is_complete st) && (iteration st <? MAX_ITERATIONS));
      [discriminate|]. now injection H as _ <- _.
  - destruct (negb (is_complete st) && (iteration st <? MAX_ITERATIONS));
      [|now injection H as _ <- _].
    pose proof (agent_iteration_completion st w) as C.
    pose proof (agent_iteration_keeps chat_completion analysis_completion st w)
      as [_ _ P _ _ _ _ _ _].
    destruct (agent_iteration _ _ st w) as [[[u|e] st1] w1]; cbn [fst snd] in *.
    + assert (Inv1 : is_complete st1 = true ->
                     asked_for "mark_complete" (messages st1)).
      { intros D. destruct (C D) as [D0|A]; [|exact A].
        eapply asked_for_later; [exact P | now apply Inv]. }
      destruct (is_complete st1) eqn:D1.
      * injection H as _ <- _. intros _. now apply Inv1.
      * eapply IH; [exact H | rewrite D1; discriminate].
    + injection H as _ <- _. intros D. destruct (C D) as [D0|A]; [|exact A].
      eapply asked_for_later; [exact P | now apply Inv].
Qed.

End Completion.

(** X5.  A run is complete only when the model has asked for it: if the
    final state has [is_complete] set, some assistant message of the
    transcript holds a call of [mark_complete]. *)
Theorem completion_is_always_asked_for
    (chat : list Message -> outcome AssistantMessage)
    (analysis : pyval -> pyval -> outcome pyval)
    (input output : string) (w : World) :
  match run_agent chat analysis input output w with
  | Some (_, st', _) =>
      is_complete st' = true -> asked_for "mark_complete" (messages st')
  | None => False
  end.
Proof.
  pose proof (run_agent_total chat analysis input output w) as T.
  unfold run_agent in *.
  destruct (agent_loop _ _ _ (initial_state input output) w)
    as [[[o st'] w']|] eqn:E; [|congruence].
  assert (C : is_complete st' = true -> asked_for "mark_complete" (messages st')).
  { eapply agent_loop_completion; [exact E|]. discriminate. }
  destruct o; exact C.
Qed.

Lemma completion_is_always_asked_for_witness :
  match run_agent finishing_model silent_analysis "deck.pptx" "out.pptx"
          (disk two_bodies) with
  | Some (_, st', _) =>
      is_complete st' = true /\ asked_for "mark_complete" (messages st')
  | None => False
  end.
Proof.
  pose proof (completion_is_always_asked_for finishing_model silent_analysis
                "deck.pptx" "out.pptx" (disk two_bodies)) as H.
  destruct (run_agent finishing_model silent_analysis "deck.pptx" "out.pptx"
              (disk two_bodies)) as [[[o st'] w']|] eqn:R; [|exact H].
  assert (C : is_complete st' = true).
  { vm_compute in R. injection R as _ <- _. reflexivity. }
  split; [exact C | exact (H C)].
Defined.


Lemma same_messages_refl st : same_messages st st.
Proof. reflexivity. Qed.

Lemma same_messages_trans a b c :
  same_messages a b -> same_messages b c -> same_messages a c.
Proof. unfold same_messages. congruence. Qed.

Ltac keeps_messages :=
  repeat first
    [ apply (frames_bind _ same_messages_trans)
    | apply (frames_ret _ same_messages_refl)
    | apply (frames_raise _ same_messages_refl)
    | apply (frames_lift _ same_messages_refl)
    | apply (frames_get_state _ same_messages_refl)
    | apply (frames_get_world _ same_messages_refl)
    | apply (frames_put_world _ same_messages_refl)
    | apply frames_modify_state; intros; reflexivity
    | match goal with |- forall _, frames _ _ => intros ? end ].

Section Answers.

Variable chat_completion : list Message -> outcome AssistantMessage.
Variable analysis_completion : pyval -> pyval -> outcome pyval.

(** No tool touches the transcript. *)
Lemma call_tool_same_messages name args :
  frames same_messages (call_tool analysis_completion name args).
Proof.
  destruct (registry_cases analysis_completion name)
    as [->|[->|[->|[->|[->|[->|H]]]]]].
  - change (frames same_messages tool_extract_slide_content).
    unfold tool_extract_slide_content. keeps_messages.
  - unfold call_tool. cbn. unfold tool_analyze_text_for_errors. keeps_messages.
  - change (frames same_messages tool_analyze_alignment).
    unfold tool_analyze_alignment. keeps_messages.
    destruct (get_title_placeholder_positions _); [keeps_messages|].
    destruct (most_common_left _); keeps_messages.
  - unfold call_tool. cbn. unfold tool_add_correction. keeps_messages.
  - change (frames same_messages tool_apply_all_corrections).
    unfold tool_apply_all_corrections. keeps_messages.
    destruct (pending_corrections _); keeps_messages.
  - change (frames same_messages tool_mark_complete).
    unfold tool_mark_complete. keeps_messages.
  - rewrite call_tool_not_found by exact H. keeps_messages.
Qed.

Lemma execute_tool_call_answer tc st w st' w' :
  execute_tool_call analysis_completion tc st w = (Ok tt, st', w') ->
  exists reply, answers tc reply /\ messages st' = messages st ++ [reply].
Proof.
  unfold execute_tool_call, bind, lift.
  destruct (load_arguments (tc_arguments tc)) as [args|e]; [|discriminate].
  pose proof (call_tool_same_messages (tc_name tc) args st w) as K.
  destruct (call_tool _ _ args st w) as [[[r|e] st1] w1]; [|discriminate].
  unfold same_messages in K. cbn [fst snd] in K.
  unfold append_message, modify_state. intros [= <- <-].
  exists (ToolMessage (tc_id tc) r). split; [now exists r|]. simpl. now rewrite K.
Qed.

Lemma execute_tool_calls_answers tcs : forall st w st' w',
  execute_tool_calls analysis_completion tcs st w = (Ok tt, st', w') ->
  exists replies,
    Forall2 answers tcs replies /\ messages st' = messages st ++ replies.
Proof.
  induction tcs as [|tc tcs IH]; intros st w st' w' H; cbn [execute_tool_calls] in H.
  - injection H as <- <-. exists []. split; [constructor | now rewrite app_nil_r].
  - unfold bind in H.
    destruct (execute_tool_call analysis_completion tc st w)
      as [[[[]|e] st1] w1] eqn:E; [|discriminate].
    apply execute_tool_call_answer in E as (reply & A & M1).
    apply IH in H as (replies & F & M2).
    exists (reply :: replies). split; [now constructor|].
    rewrite M2, M1, <- app_assoc. reflexivity.
Qed.

End Answers.

(** X6.  A turn of the loop that returns has appended the assistant's
    message and then, for each of its tool calls and in their order, one
    tool message with the identifier of the call; it has changed nothing
    else in the transcript. *)
Theorem every_tool_call_is_answered
    (chat : list Message -> outcome AssistantMessage)
    (analysis : pyval -> pyval -> outcome pyval)
    (st st' : AgentState) (w w' : World) :
  agent_iteration chat analysis st w = (Ok tt, st', w') ->
  exists m replies,
    chat (messages st) = Ok m /\
    messages st' = messages st ++ FromAssistant m :: replies /\
    Forall2 answers (requested m) replies.
Proof.
  rewrite agent_iteration_step.
  unfold bind, get_state, lift, append_message, modify_state.
  change (messages (set_iteration st (iteration st + 1))) with (messages st).
  destruct (chat (messages st)) as [m|e]; [|discriminate].
  intros H. exists m. unfold requested.
  destruct (tool_calls m) as [[|tc rest]|].
  - injection H as <- <-. exists []. repeat split. constructor.
  - apply execute_tool_calls_answers in H as (replies & F & M).
    exists replies. split; [reflexivity|]. split; [|exact F].
    rewrite M. simpl. now rewrite <- app_assoc.
  - injection H as <- <-. exists []. repeat split. constructor.
Qed.

Lemma every_tool_call_is_answered_witness :
  exists m replies,
    confused_model (messages fresh_state) = Ok m /\
    messages fresh_state
      ++ [FromAssistant (one_call "call_1" "delete_slide" NoArguments);
          ToolMessage "call_1"
            (PDict [("error", PStr "Tool not found: delete_slide")])]
    = messages fresh_state ++ FromAssistant m :: replies /\
    Forall2 answers (requested m) replies.
Proof.
  apply (every_tool_call_is_answered confused_model silent_analysis fresh_state
           (set_messages (set_iteration fresh_state 1)
              (messages fresh_state
               ++ [FromAssistant (one_call "call_1" "delete_slide" NoArguments);
                   ToolMessage "call_1"
                     (PDict [("error", PStr "Tool not found: delete_slide")])]))
           (disk two_bodies) (disk two_bodies)).
  vm_compute. reflexivity.
Defined.

(* ===================================================================== *)
(** ** More on [tool_apply_all_corrections] *)
(* ===================================================================== *)

Section Layout.

Lemma same_format_refl r : same_format r r.
Proof. now split. Qed.

Lemma paragraph_layout_refl p : paragraph_layout p p.
Proof.
  split; [reflexivity|]. apply Forall_Forall2_diag, Forall_forall.
  intros r _. apply same_format_refl.
Qed.









Variable c : Correction.






End Layout.




Section Unreported.

Variable c : Correction.











End Unreported.





(** X9.  Every pass starts again from the input file.  When the two paths
    differ, a pass that follows an earlier pass writes the corrections
    pending now, applied to the presentation as it was before the earlier
    pass: the edits of the earlier pass are not in the file it writes. *)
Theorem each_pass_starts_from_the_input_file
    (st st1 st2 st3 : AgentState) (w w1 w3 : World) (r1 r2 : pyval)
    (prs : Presentation) :
  presentation_path st <> output_path st ->
  open_presentation w (presentation_path st) = Ok prs ->
  tool_apply_all_corrections st w = (Ok r1, st1, w1) ->
  presentation_path st2 = presentation_path st ->
  output_path st2 = output_path st ->
  pending_corrections st2 <> [] ->
  tool_apply_all_corrections st2 w1 = (Ok r2, st3, w3) ->
  exists doc details,
    apply_corrections (pending_corrections st2) prs [] = Ok (doc, details) /\
    files w3 !! output_path st = Some doc.
Proof.
  intros D O H1 P2 O2 N2 H2.
  pose proof (apply_keeps st w) as [_ _ _ _ _ _ _ _ F]. rewrite H1 in F.
  cbn [fst snd] in F.
  apply tool_apply_output in H2 as (prs2 & doc & details & Op & A & _ & Fw); [|exact N2].
  unfold open_presentation in O, Op. rewrite P2, (F _ D) in Op.
  destruct (files w !! presentation_path st) as [p|]; [|discriminate].
  injection O as ->. injection Op as <-.
  exists doc, details. split; [exact A|].
  rewrite Fw, O2. apply lookup_insert_eq.
Qed.

Lemma each_pass_starts_from_the_input_file_witness :
  exists doc details,
    apply_corrections [left_fix 1 "Title 1" "100"] two_bodies [] = Ok (doc, details) /\
    files (disk_with_output two_bodies
             [{| Pptx.shapes := [text_box "Title 1" 100 ["Overview"];
                                 text_box "Body" 457200 ["Teh quikc tets"];
                                 text_box "Body" 457200 ["Teh end"]];
                 Pptx.notes := None |}]) !! "out.pptx" = Some doc.
Proof.
  apply (each_pass_starts_from_the_input_file
           (with_pending [text_fix 1 "Body" "Teh" "the"])
           (after_apply (with_pending [text_fix 1 "Body" "Teh" "the"]))
           (with_pending [left_fix 1 "Title 1" "100"])
           (after_apply (with_pending [left_fix 1 "Title 1" "100"]))
           (disk two_bodies) (disk_with_output two_bodies corrected_bodies)
           (disk_with_output two_bodies
              [{| Pptx.shapes := [text_box "Title 1" 100 ["Overview"];
                                  text_box "Body" 457200 ["Teh quikc tets"];
                                  text_box "Body" 457200 ["Teh end"]];
                  Pptx.notes := None |}])
           (success_result [text_entry (text_fix 1 "Body" "Teh" "the");
                            text_entry (text_fix 1 "Body" "Teh" "the")] "out.pptx")
           (success_result [alignment_entry (left_fix 1 "Title 1" "100")] "out.pptx")
           two_bodies).
  - discriminate.
  - reflexivity.
  - vm_compute. reflexivity.
  - reflexivity.
  - reflexivity.
  - discriminate.
  - vm_compute. reflexivity.
Defined.

(* ===================================================================== *)
(** ** The tools that only read *)
(* ===================================================================== *)

(** X10.  [tool_extract_slide_content] only reads.  If the presentation
    cannot be opened it raises and leaves the state as it is, the earlier
    [slides_content] included.  Otherwise it leaves the file system as it
    is, reports the number of slides, replaces [slides_content] by one
    entry for every slide, numbered from 1 in slide order and holding the
    notes of that slide, and changes nothing else in the state; a second
    call returns the same result and leaves the same state. *)
Theorem extract_only_reads (st : AgentState) (w : World) :
  match open_presentation w (presentation_path st) with
  | Raise e => tool_extract_slide_content st w = (Raise e, st, w)
  | Ok prs =>
      exists r st',
        tool_extract_slide_content st w = (Ok r, st', w) /\
        subscript r "total_slides" = Ok (PInt (py_len prs)) /\
        st' = set_slides_content st (slides_content st') /\
        length (slides_content st') = length prs /\
        (forall i sc,
           slides_content st' !! i = Some sc ->
           sc_slide_number sc = Z.of_nat i + 1 /\
           exists slide, prs !! i = Some slide /\ sc_notes sc = slide_notes slide) /\
        tool_extract_slide_content st' w = (Ok r, st', w)
  end.
Proof.
  unfold tool_extract_slide_content, bind, get_state, get_world, lift,
    modify_state, ret.
  destruct (open_presentation w (presentation_path st)) as [prs|e] eqn:O;
    [|reflexivity].
  eexists _, _. split; [reflexivity|]. split; [reflexivity|].
  split; [reflexivity|]. split; [simpl; apply length_imap|]. split.
  - intros i sc L. simpl in L. rewrite list_lookup_imap in L.
    destruct (prs !! i) as [slide|]; [|discriminate].
    injection L as <-. split; [reflexivity|]. now exists slide.
  - simpl. now rewrite O.
Qed.

Lemma misaligned_none (titles : list TitlePosition) (v : Z) :
  filter (fun p => tp_left p <> v) titles = [] <->
  forall p, p ∈ titles -> tp_left p = v.
Proof.
  split.
  - intros E p I. destruct (decide (tp_left p = v)) as [|N]; [assumption|].
    assert (X : p ∈ filter (fun p => tp_left p <> v) titles)
      by (apply list_elem_of_filter; auto).
    rewrite E in X. inversion X.
  - intros A. destruct (filter (fun p => tp_left p <> v) titles) as [|p f] eqn:E;
      [reflexivity|].
    assert (X : p ∈ filter (fun p => tp_left p <> v) titles) by (rewrite E; left).
    apply list_elem_of_filter in X as [N I]. now specialize (A p I).
Qed.

(** X11.  [tool_analyze_alignment] only reads: on a presentation that
    opens it returns and leaves state and file system as they are.  Without
    a title shape it answers that no titles were found.  Otherwise some
    title stands at the standard position it reports, the misaligned
    titles are the titles that stand elsewhere, in the order of the
    document, and [has_issues] is false exactly when all titles stand at
    one left position. *)
Theorem alignment_report (st : AgentState) (w : World) (prs : Presentation) :
  open_presentation w (presentation_path st) = Ok prs ->
  exists r,
    tool_analyze_alignment st w = (Ok r, st, w) /\
    (get_title_placeholder_positions prs = [] ->
     r = PDict [("has_issues", PBool false); ("message", PStr "No titles found")]) /\
    (get_title_placeholder_positions prs <> [] ->
     exists v issues,
       subscript r "standard_left_position" = Ok (PInt v) /\
       (exists p, p ∈ get_title_placeholder_positions prs /\ tp_left p = v) /\
       subscript r "misaligned_titles"
       = Ok (PList (map title_position_dict
                      (filter (fun p => tp_left p <> v)
                              (get_title_placeholder_positions prs)))) /\
       subscript r "has_issues" = Ok (PBool issues) /\
       (issues = false <->
        forall p q,
          p ∈ get_title_placeholder_positions prs ->
          q ∈ get_title_placeholder_positions prs -> tp_left p = tp_left q)).
Proof.
  intros O.
  unfold tool_analyze_alignment, bind, get_state, get_world, lift. rewrite O.
  destruct (get_title_placeholder_positions prs) as [|t ts] eqn:T.
  - eexists. split; [reflexivity|]. split; [reflexivity | congruence].
  - destruct (most_common_left_first (map tp_left (t :: ts)) ltac:(discriminate))
      as (v & E & pre & post & Epre & _ & _).
    rewrite E. eexists. split; [reflexivity|]. split; [discriminate|].
    intros _. exists v. eexists. split; [reflexivity|].
    assert (Hv : exists p, p ∈ t :: ts /\ tp_left p = v).
    { assert (I : v ∈ map tp_left (t :: ts))
        by (rewrite Epre; apply elem_of_app; right; left).
      apply list_elem_of_fmap in I as (p & -> & I). now exists p. }
    split; [exact Hv|]. split; [reflexivity|]. split; [reflexivity|].
    unfold py_len.
    destruct (filter (fun p => tp_left p <> v) (t :: ts)) as [|m ms] eqn:F.
    + split; [|reflexivity]. intros _ p q Ip Iq.
      pose proof (proj1 (misaligned_none (t :: ts) v) F) as A.
      now rewrite (A p Ip), (A q Iq).
    + split.
      * simpl. intros C. exfalso. revert C. clear.
        destruct (length ms); simpl; discriminate.
      * intros A. exfalso. destruct Hv as (p & Ip & <-).
        assert (Z0 : filter (fun q => tp_left q <> tp_left p) (t :: ts) = [])
          by (apply misaligned_none; intros q Iq; now apply A).
        rewrite Z0 in F. discriminate.
Qed.

Lemma alignment_report_witness :
  exists r,
    tool_analyze_alignment fresh_state (disk three_titles)
    = (Ok r, fresh_state, disk three_titles) /\
    (get_title_placeholder_positions three_titles = [] ->
     r = PDict [("has_issues", PBool false); ("message", PStr "No titles found")]) /\
    (get_title_placeholder_positions three_titles <> [] ->
     exists v issues,
       subscript r "standard_left_position" = Ok (PInt v) /\
       (exists p, p ∈ get_title_placeholder_positions three_titles /\ tp_left p = v) /\
       subscript r "misaligned_titles"
       = Ok (PList (map title_position_dict
                      (filter (fun p => tp_left p <> v)
                              (get_title_placeholder_positions three_titles)))) /\
       subscript r "has_issues" = Ok (PBool issues) /\
       (issues = false <->
        forall p q,
          p ∈ get_title_placeholder_positions three_titles ->
          q ∈ get_title_placeholder_positions three_titles -> tp_left p = tp_left q)).
Proof.
  apply (alignment_report fresh_state (disk three_titles) three_titles).
  reflexivity.
Defined.

(* ===================================================================== *)
(** ** [correct_pptx.py] *)
(* ===================================================================== *)

(** X12.  [fix_repeated] never uses the one-letter endings of its list: for
    the letters s, t, e and l (in lower case) it returns the prefix and the
    letter twice, for every other character the prefix and the character
    once. *)
Theorem fix_repeated_doubles_four_letters (prefix char : string) :
  CorrectPptx.fix_repeated prefix char =
  if existsb (String.eqb char) ["s"; "t"; "e"; "l"]
  then prefix +:+ char +:+ char
  else prefix +:+ char.
Proof.
  unfold CorrectPptx.fix_repeated. cbn [CorrectPptx.first_ending existsb].
  cbn [CorrectPptx.first_character].
  rewrite !(String.eqb_sym char).
  destruct (String.eqb_spec "s" char) as [<-|]; [reflexivity|].
  destruct (String.eqb_spec "t" char) as [<-|]; [reflexivity|].
  destruct (String.eqb_spec "e" char) as [<-|]; [reflexivity|].
  destruct (String.eqb_spec "l" char) as [<-|]; reflexivity.
Qed.

Section SpellCheckFacts.

Variable re_sub : string -> string -> string -> string.
Variable re_sub_groups : string -> (string -> string -> string) -> string -> string.

Lemma apply_patterns_length table : forall acc,
  (length (snd (fold_left (CorrectPptx.apply_pattern re_sub) table acc))
   <= length (snd acc) + length table)%nat.
Proof.
  induction table as [|entry table IH]; intros acc; simpl; [lia|].
  specialize (IH (CorrectPptx.apply_pattern re_sub acc entry)).
  unfold CorrectPptx.apply_pattern in *.
  destruct (String.eqb _ (fst acc)); simpl in *; [lia|].
  rewrite length_app in IH. simpl in IH. lia.
Qed.

Lemma apply_patterns_unchanged table : forall text,
  (forall pattern replacement s, re_sub pattern replacement s = s) ->
  fold_left (CorrectPptx.apply_pattern re_sub) table (text, []) = (text, []).
Proof.
  intros text Id. induction table as [|entry table IH]; simpl; [reflexivity|].
  unfold CorrectPptx.apply_pattern at 2. simpl. rewrite Id, String.eqb_refl.
  exact IH.
Qed.

Lemma spell_check_silent text :
  snd (CorrectPptx.simple_spell_check re_sub re_sub_groups text) = [] ->
  fst (CorrectPptx.simple_spell_check re_sub re_sub_groups text) = text.
Proof.
  unfold CorrectPptx.simple_spell_check.
  set (rep := if String.eqb (re_sub_groups _ _ _) _ then _ else _).
  destruct (String.eqb_spec (fst rep) text) as [E|N]; cbn [fst snd];
    [intros _; exact E | discriminate].
Qed.

End SpellCheckFacts.

(** X13.  [simple_spell_check], for any behaviour of the regular expression
    engine: when the text it returns differs from its input, the list of
    corrections starts with the entry that quotes the input and the
    result; an empty list means that the text is returned as it came; the
    list has at most 21 entries; and when no substitution changes the text,
    the text comes back with an empty list. *)
Theorem spell_check_reports_its_changes
    (re_sub : string -> string -> string -> string)
    (re_sub_groups : string -> (string -> string -> string) -> string -> string)
    (text : string) :
  let checked := CorrectPptx.simple_spell_check re_sub re_sub_groups text in
  (fst checked <> text ->
   exists rest,
     snd checked = CorrectPptx.quoted_change text (fst checked) :: rest) /\
  (snd checked = [] -> fst checked = text) /\
  (length (snd checked) <= 21)%nat /\
  ((forall pattern replacement s, re_sub pattern replacement s = s) ->
   (forall pattern f s, re_sub_groups pattern f s = s) ->
   checked = (text, [])).
Proof.
  unfold CorrectPptx.simple_spell_check.
  pose proof (apply_patterns_length re_sub CorrectPptx.SPELLING_CORRECTIONS (text, []))
    as L.
  pose proof (apply_patterns_unchanged re_sub CorrectPptx.SPELLING_CORRECTIONS text)
    as U.
  destruct (fold_left _ CorrectPptx.SPELLING_CORRECTIONS (text, [])) as [t1 c1].
  cbn [fst snd] in *. change (length CorrectPptx.SPELLING_CORRECTIONS) with 19%nat in L.
  change (length (@nil string)) with O in L.
  set (rep := if String.eqb _ t1 then _ else _).
  assert (LR : (length (snd rep) <= 20)%nat).
  { subst rep. destruct (String.eqb _ t1); simpl; [lia|].
    rewrite length_app. simpl. lia. }
  destruct (String.eqb_spec (fst rep) text) as [E|N]; cbn [fst snd].
  - split; [congruence|]. split; [auto|]. split; [lia|].
    intros I1 I2. specialize (U I1). injection U as -> ->.
    subst rep. now rewrite I2, String.eqb_refl.
  - split; [intros _; eauto|]. split; [discriminate|]. split; [simpl; lia|].
    intros I1 I2. specialize (U I1). injection U as -> ->.
    subst rep. rewrite I2, String.eqb_refl in N. now destruct N.
Qed.

Lemma spell_check_reports_its_changes_witness :
  (exists rest,
     snd (CorrectPptx.simple_spell_check one_word_engine no_match_groups "teh")
     = CorrectPptx.quoted_change "teh" "the" :: rest) /\
  CorrectPptx.simple_spell_check no_match no_match_groups "teh" = ("teh", []).
Proof.
  pose proof (spell_check_reports_its_changes one_word_engine no_match_groups "teh")
    as H1.
  pose proof (spell_check_reports_its_changes no_match no_match_groups "teh") as H2.
  cbv zeta in H1, H2.
  destruct H1 as (Changed & _). destruct H2 as (_ & _ & _ & Same).
  assert (F : (CorrectPptx.simple_spell_check one_word_engine no_match_groups "teh").1
              = "the") by (vm_compute; reflexivity).
  split.
  - rewrite F in Changed. apply Changed. discriminate.
  - exact (Same (fun _ _ _ => eq_refl) (fun _ _ _ => eq_refl)).
Defined.


(** One step of a loop that may raise, in a hypothesis [H] that says that
    the loop returned. *)
Ltac returned H :=
  match type of H with
  | obind ?x _ = Ok _ =>
      let E := fresh "E" in
      destruct x as [[? ?]|] eqn:E; cbn [obind fst snd] in H; [|discriminate]
  end.

(** What the alignment block leaves of a shape when the setter accepts the
    position. *)
Lemma fix_alignment_returned standard_left slide_num sh sh' msgs :
  CorrectPptx.fix_alignment standard_left slide_num sh = Ok (sh', msgs) ->
  shape_aligned standard_left sh sh' /\
  CorrectPptx.text_frame sh' = CorrectPptx.text_frame sh /\
  CorrectPptx.table sh' = CorrectPptx.table sh /\
  (msgs = [] -> sh' = sh).
Proof.
  unfold CorrectPptx.fix_alignment, shape_aligned.
  destruct standard_left as [standard|];
    [|intros [= <- <-]; now repeat split].
  destruct (PyStr.contains "Title" (CorrectPptx.name sh));
    destruct (Z.eqb_spec (CorrectPptx.left sh) standard); cbn [andb negb];
    try (intros [= <- <-]; repeat split; congruence).
  unfold CorrectPptx.assign_left.
  destruct (Pptx.validate_coordinate standard); cbn [obind]; [|discriminate].
  intros [= <- <-]. repeat split. discriminate.
Qed.

Section Script.

Variable re_sub : string -> string -> string -> string.
Variable re_sub_groups : string -> (string -> string -> string) -> string -> string.




(** What [correct_presentation] has done when it returns. *)
Lemma correct_presentation_returned input output d msgs d' :
  CorrectPptx.correct_presentation re_sub re_sub_groups input output d
  = (Ok msgs, d') ->
  exists prs doc,
    CorrectPptx.files d !! input = Some prs /\
    CorrectPptx.fix_slides re_sub re_sub_groups
      (CorrectPptx.find_most_common_position
         (CorrectPptx.get_title_placeholder_positions prs)) O prs
    = Ok (doc, msgs) /\
    CorrectPptx.files d' = <[output := doc]> (CorrectPptx.files d).
Proof.
  unfold CorrectPptx.correct_presentation. intros R.
  destruct (CorrectPptx.files d !! input) as [prs|] eqn:I; [|discriminate].
  destruct (CorrectPptx.fix_slides _ _ _ _ prs) as [[doc m]|] eqn:F;
    [|discriminate].
  destruct (decide (output ∈ CorrectPptx.read_only d)); [discriminate|].
  injection R as <- <-. exists prs, doc. auto.
Qed.

End Script.








Section ScriptLayout.

Variable re_sub : string -> string -> string -> string.
Variable re_sub_groups : string -> (string -> string -> string) -> string -> string.

Lemma fix_run_format slide_num shape_name r :
  same_format r (CorrectPptx.fix_run re_sub re_sub_groups slide_num shape_name r).1.
Proof.
  unfold CorrectPptx.fix_run.
  destruct (PyStr.strip_nonempty (Pptx.text r)); [|apply same_format_refl].
  destruct (String.eqb _ (Pptx.text r)); [apply same_format_refl | now split].
Qed.

Lemma fix_runs_format slide_num shape_name rs :
  Forall2 same_format rs
    (CorrectPptx.fix_runs re_sub re_sub_groups slide_num shape_name rs).1.
Proof.
  induction rs as [|r rs IH]; simpl; constructor; [apply fix_run_format | exact IH].
Qed.

Lemma fix_paragraphs_layout slide_num shape_name ps :
  Forall2 paragraph_layout ps
    (CorrectPptx.fix_paragraphs re_sub re_sub_groups slide_num shape_name ps).1.
Proof.
  induction ps as [|p ps IH]; simpl; constructor; [|exact IH].
  split; [reflexivity|]. apply fix_runs_format.
Qed.

Lemma recheck_cell_layout cell :
  Forall2 paragraph_layout cell (CorrectPptx.recheck_cell re_sub re_sub_groups cell).
Proof.
  unfold CorrectPptx.recheck_cell.
  induction cell as [|p cell IH]; simpl; constructor; [|exact IH].
  split; [reflexivity|]. simpl.
  induction (Pptx.runs p) as [|r rs IHr]; simpl; constructor; [now split | exact IHr].
Qed.

Lemma paragraphs_layout_refl (ps : list Pptx.Paragraph) :
  Forall2 paragraph_layout ps ps.
Proof.
  apply Forall_Forall2_diag, Forall_forall. intros p _. apply paragraph_layout_refl.
Qed.

Lemma fix_cell_layout slide_num row_idx cell_idx cell :
  Forall2 paragraph_layout cell
    (CorrectPptx.fix_cell re_sub re_sub_groups slide_num row_idx cell_idx cell).1.
Proof.
  unfold CorrectPptx.fix_cell.
  destruct (PyStr.strip_nonempty _); [|apply paragraphs_layout_refl].
  destruct (String.eqb _ _); [apply paragraphs_layout_refl | apply recheck_cell_layout].
Qed.

Lemma fix_cells_layout slide_num row_idx cells : forall cell_idx,
  Forall2 (Forall2 paragraph_layout) cells
    (CorrectPptx.fix_cells re_sub re_sub_groups slide_num row_idx cell_idx cells).1.
Proof.
  induction cells as [|cell cells IH]; intros cell_idx; simpl; constructor;
    [apply fix_cell_layout | apply IH].
Qed.

Lemma fix_rows_layout slide_num rows : forall row_idx,
  Forall2 (Forall2 (Forall2 paragraph_layout)) rows
    (CorrectPptx.fix_rows re_sub re_sub_groups slide_num row_idx rows).1.
Proof.
  induction rows as [|row rows IH]; intros row_idx; simpl; constructor;
    [apply fix_cells_layout | apply IH].
Qed.

Lemma fix_shape_layout standard_left slide_num sh sh' msgs :
  CorrectPptx.fix_shape re_sub re_sub_groups standard_left slide_num sh
  = Ok (sh', msgs) ->
  script_layout sh sh'.
Proof.
  unfold CorrectPptx.fix_shape, script_layout. intros R. returned R.
  apply fix_alignment_returned in E as (_ & F & T & _).
  injection R as <- _. rewrite F.
  destruct (CorrectPptx.text_frame sh) as [paras|]; cbn [fst snd];
    match goal with
    | |- context [CorrectPptx.table (CorrectPptx.set_text_frame ?a ?f)] =>
        change (CorrectPptx.table (CorrectPptx.set_text_frame a f))
          with (CorrectPptx.table a)
    | _ => idtac
    end;
    rewrite T;
    destruct (CorrectPptx.table sh) as [rows|]; cbn [fst snd]; simpl;
    rewrite ?F, ?T; split;
    first [ exact I | apply fix_paragraphs_layout | apply fix_rows_layout ].
Qed.

Lemma fix_shapes_layout standard_left slide_num shs : forall shs' msgs,
  CorrectPptx.fix_shapes re_sub re_sub_groups standard_left slide_num shs
  = Ok (shs', msgs) ->
  Forall2 script_layout shs shs'.
Proof.
  induction shs as [|sh shs IH]; intros shs' msgs R;
    cbn [CorrectPptx.fix_shapes] in R.
  - injection R as <- _. constructor.
  - returned R. returned R. injection R as <- _.
    constructor; [eapply fix_shape_layout, E | eapply IH; reflexivity].
Qed.

Lemma fix_slides_layout standard_left prs : forall slide_idx doc msgs,
  CorrectPptx.fix_slides re_sub re_sub_groups standard_left slide_idx prs
  = Ok (doc, msgs) ->
  Forall2 (Forall2 script_layout) prs doc.
Proof.
  induction prs as [|slide prs IH]; intros slide_idx doc msgs R;
    cbn [CorrectPptx.fix_slides] in R.
  - injection R as <- _. constructor.
  - returned R. returned R. injection R as <- _.
    constructor; [eapply fix_shapes_layout, E | eapply IH, E0].
Qed.

(** *** Nothing changes without a message *)

Lemma fix_run_silent slide_num shape_name r :
  (CorrectPptx.fix_run re_sub re_sub_groups slide_num shape_name r).2 = [] ->
  (CorrectPptx.fix_run re_sub re_sub_groups slide_num shape_name r).1 = r.
Proof.
  unfold CorrectPptx.fix_run.
  destruct (PyStr.strip_nonempty (Pptx.text r)); [|reflexivity].
  destruct (String.eqb_spec
              (CorrectPptx.simple_spell_check re_sub re_sub_groups (Pptx.text r)).1
              (Pptx.text r)) as [E|N]; [reflexivity|].
  cbn [fst snd]. intros S. apply fmap_nil_inv in S.
  now apply spell_check_silent in S.
Qed.

Lemma fix_runs_silent slide_num shape_name rs :
  (CorrectPptx.fix_runs re_sub re_sub_groups slide_num shape_name rs).2 = [] ->
  (CorrectPptx.fix_runs re_sub re_sub_groups slide_num shape_name rs).1 = rs.
Proof.
  induction rs as [|r rs IH]; [reflexivity|]. cbn [CorrectPptx.fix_runs fst snd].
  intros S. apply app_eq_nil in S as [S1 S2].
  now rewrite (fix_run_silent _ _ _ S1), (IH S2).
Qed.

Lemma fix_paragraphs_silent slide_num shape_name ps :
  (CorrectPptx.fix_paragraphs re_sub re_sub_groups slide_num shape_name ps).2 = [] ->
  (CorrectPptx.fix_paragraphs re_sub re_sub_groups slide_num shape_name ps).1 = ps.
Proof.
  induction ps as [|p ps IH]; [reflexivity|].
  cbn [CorrectPptx.fix_paragraphs fst snd].
  intros S. apply app_eq_nil in S as [S1 S2].
  rewrite (fix_runs_silent _ _ _ S1), (IH S2). now destruct p.
Qed.

Lemma fix_cell_silent slide_num row_idx cell_idx cell :
  (CorrectPptx.fix_cell re_sub re_sub_groups slide_num row_idx cell_idx cell).2 = [] ->
  (CorrectPptx.fix_cell re_sub re_sub_groups slide_num row_idx cell_idx cell).1 = cell.
Proof.
  unfold CorrectPptx.fix_cell.
  destruct (PyStr.strip_nonempty _); [|reflexivity].
  destruct (String.eqb_spec
              (CorrectPptx.simple_spell_check re_sub re_sub_groups
                 (CorrectPptx.cell_text cell)).1
              (CorrectPptx.cell_text cell)) as [E|N]; [reflexivity|].
  cbn [fst snd]. intros S. apply fmap_nil_inv in S.
  now apply spell_check_silent in S.
Qed.

Lemma fix_cells_silent slide_num row_idx cells : forall cell_idx,
  (CorrectPptx.fix_cells re_sub re_sub_groups slide_num row_idx cell_idx cells).2 = [] ->
  (CorrectPptx.fix_cells re_sub re_sub_groups slide_num row_idx cell_idx cells).1 = cells.
Proof.
  induction cells as [|cell cells IH]; intros cell_idx; [reflexivity|].
  cbn [CorrectPptx.fix_cells fst snd].
  intros S. apply app_eq_nil in S as [S1 S2].
  now rewrite (fix_cell_silent _ _ _ _ S1), (IH _ S2).
Qed.

Lemma fix_rows_silent slide_num rows : forall row_idx,
  (CorrectPptx.fix_rows re_sub re_sub_groups slide_num row_idx rows).2 = [] ->
  (CorrectPptx.fix_rows re_sub re_sub_groups slide_num row_idx rows).1 = rows.
Proof.
  induction rows as [|row rows IH]; intros row_idx; [reflexivity|].
  cbn [CorrectPptx.fix_rows fst snd].
  intros S. apply app_eq_nil in S as [S1 S2].
  now rewrite (fix_cells_silent _ _ _ _ S1), (IH _ S2).
Qed.

Lemma fix_shape_silent standard_left slide_num sh sh' :
  CorrectPptx.fix_shape re_sub re_sub_groups standard_left slide_num sh
  = Ok (sh', []) ->
  sh' = sh.
Proof.
  unfold CorrectPptx.fix_shape. intros R. returned R.
  injection R as <- S.
  apply app_eq_nil in S as [S1 S]. apply app_eq_nil in S as [S2 S3].
  apply fix_alignment_returned in E as (_ & _ & _ & Same).
  rewrite (Same S1) in *. clear Same.
  destruct (CorrectPptx.text_frame sh) as [paras|] eqn:F; cbn [fst snd] in *.
  - rewrite (fix_paragraphs_silent _ _ _ S2) in *.
    assert (Same : CorrectPptx.set_text_frame sh (Some paras) = sh)
      by (destruct sh; simpl in F; now subst).
    rewrite Same in *.
    destruct (CorrectPptx.table sh) as [rows|] eqn:T; cbn [fst snd] in *;
      [|reflexivity].
    rewrite (fix_rows_silent _ _ _ S3). destruct sh; simpl in T; now subst.
  - destruct (CorrectPptx.table sh) as [rows|] eqn:T; cbn [fst snd] in *;
      [|reflexivity].
    rewrite (fix_rows_silent _ _ _ S3). destruct sh; simpl in T; now subst.
Qed.

Lemma fix_shapes_silent standard_left slide_num shs : forall shs',
  CorrectPptx.fix_shapes re_sub re_sub_groups standard_left slide_num shs
  = Ok (shs', []) ->
  shs' = shs.
Proof.
  induction shs as [|sh shs IH]; intros shs' R;
    cbn [CorrectPptx.fix_shapes] in R.
  - now injection R as <-.
  - returned R. returned R. injection R as <- S.
    apply app_eq_nil in S as [-> ->].
    now rewrite (fix_shape_silent _ _ _ _ E), (IH _ eq_refl).
Qed.

Lemma fix_slides_silent standard_left prs : forall slide_idx doc,
  CorrectPptx.fix_slides re_sub re_sub_groups standard_left slide_idx prs
  = Ok (doc, []) ->
  doc = prs.
Proof.
  induction prs as [|slide prs IH]; intros slide_idx doc R;
    cbn [CorrectPptx.fix_slides] in R.
  - now injection R as <-.
  - returned R. returned R. injection R as <- S.
    apply app_eq_nil in S as [-> ->].
    now rewrite (fix_shapes_silent _ _ _ _ E), (IH _ _ E0).
Qed.

End ScriptLayout.

(** X15.  [correct_presentation], when it returns: every shape of the file
    it writes has the text frame and the table of the shape it comes from,
    with as many paragraphs, rows, cells and runs, every paragraph at its
    level and every run with its bold and italic settings.  The script
    rewrites the texts of runs and nothing else of a text frame or table. *)
Theorem script_keeps_the_layout
    (re_sub : string -> string -> string -> string)
    (re_sub_groups : string -> (string -> string -> string) -> string -> string)
    (input output : string) (d d' : CorrectPptx.Disk) (msgs : list string) :
  CorrectPptx.correct_presentation re_sub re_sub_groups input output d
  = (Ok msgs, d') ->
  exists prs doc,
    CorrectPptx.files d !! input = Some prs /\
    CorrectPptx.files d' !! output = Some doc /\
    Forall2 (Forall2 script_layout) prs doc.
Proof.
  intros R.
  apply correct_presentation_returned in R as (prs & doc & I & F & W).
  exists prs, doc. split; [exact I|].
  split; [rewrite W; apply lookup_insert_eq|].
  eapply fix_slides_layout, F.
Qed.

Lemma script_keeps_the_layout_witness :
  exists prs doc,
    CorrectPptx.files script_disk !! "deck.pptx" = Some prs /\
    CorrectPptx.files script_disk_after !! "out.pptx" = Some doc /\
    Forall2 (Forall2 script_layout) prs doc.
Proof.
  apply (script_keeps_the_layout no_match no_match_groups "deck.pptx" "out.pptx"
           script_disk script_disk_after
           ["Slide 3, Title 3: Aligned left from 250 to 100"]).
  vm_compute. reflexivity.
Defined.

(** X16.  [correct_presentation] changes nothing without a message: when
    the list it returns is empty, the file it has written is the input
    presentation, whatever the regular expression engine does. *)
Theorem script_reports_every_change
    (re_sub : string -> string -> string -> string)
    (re_sub_groups : string -> (string -> string -> string) -> string -> string)
    (input output : string) (d d' : CorrectPptx.Disk) :
  CorrectPptx.correct_presentation re_sub re_sub_groups input output d
  = (Ok [], d') ->
  CorrectPptx.files d' !! output = CorrectPptx.files d !! input /\
  CorrectPptx.files d' !! output <> None.
Proof.
  intros R.
  apply correct_presentation_returned in R as (prs & doc & I & F & W).
  rewrite W, lookup_insert_eq, I. apply fix_slides_silent in F. now subst.
Qed.

Lemma script_reports_every_change_witness :
  CorrectPptx.files script_disk_twice !! "again.pptx"
  = CorrectPptx.files script_disk_after !! "out.pptx" /\
  CorrectPptx.files script_disk_twice !! "again.pptx" <> None.
Proof.
  apply (script_reports_every_change no_match no_match_groups "out.pptx" "again.pptx"
           script_disk_after script_disk_twice).
  vm_compute. reflexivity.
Defined.
